(** * Front matter data source: records, schema detection and selection

    A shallow embedding of [FrontMatterDataSource] (the class converting
    Markdown front matter to data frames) together with [parseRecords] and
    [detectSchema].  JavaScript objects used as dictionaries are finite maps
    keyed by strings, arrays are lists, [null]/[undefined] results are
    options.  Promises are dropped: no method awaits anything but its own
    synchronous computation. *)

From Stdlib Require Import Ascii ZArith.
From stdpp Require Import base option list strings gmap fin_maps sorting.

Local Open Scope string_scope.
Local Open Scope list_scope.
Set Warnings "-register-all".

(** ** Values held by a front matter dictionary *)

(** A front matter value is whatever the YAML block of a note parses to.
    The payload of a number is never inspected by the code below. *)
Inductive Value :=
| VUndefined
| VNull
| VString (s : string)
| VNumber (n : Z)
| VBool (b : bool)
| VList (vs : list Value)
| VObject (kvs : list (string * Value)).

(** ** Data model of the data layer *)

Module DataFieldType.

Inductive t := String | Number | Boolean | Date | Unknown.

#[global] Instance eq_dec : EqDecision t.
Proof. solve_decision. Defined.

End DataFieldType.

Record DataField := {
  name : string;
  type : DataFieldType.t;
  repeated : bool;
  identifier : bool;
  derived : bool;
  typeConfig : option (list string);
}.

Record DataRecord := {
  id : string;
  values : gmap string Value;
}.

Record DataFrame := {
  fields : list DataField;
  records : list DataRecord;
}.

(** ** The host application *)

Module TFile.

Record t := { path : string; basename : string }.

End TFile.

Record CachedMetadata := {
  frontmatter : option (gmap string Value);
}.

Record MetadataCache := {
  getFileCache : TFile.t → option CachedMetadata;
}.

Record Vault := {
  getMarkdownFiles : list TFile.t;
}.

Record App := {
  vault : Vault;
  metadataCache : MetadataCache;
}.

Module ProjectDefinition.

Record t := { path : string; recursive : bool }.

End ProjectDefinition.

(** ** String and array primitives of the host language *)

(** [s.startsWith(p)] *)
Definition startsWith (s p : string) : bool := String.prefix p s.

(** [s.slice(1)] *)
Definition slice1 (s : string) : string :=
  match s with
  | EmptyString => EmptyString
  | String _ rest => rest
  end.

(** [s.split(sep)] for a one-character separator; the empty string splits
    into one empty element. *)
Fixpoint split (sep : Ascii.ascii) (s : string) : list string :=
  match s with
  | EmptyString => [EmptyString]
  | String c rest =>
      if Ascii.eqb c sep then EmptyString :: split sep rest
      else match split sep rest with
           | [] => [String c EmptyString]
           | el :: els => String c el :: els
           end
  end.

(** [a.slice(0, -1)] *)
Definition dropLast {A} (a : list A) : list A := removelast a.

(** [a.join(sep)] *)
Definition join (sep : string) (a : list string) : string := String.concat sep a.

(** Truthiness of a string: [el => el] as a filter predicate. *)
Definition truthy (el : string) : bool :=
  match el with EmptyString => false | _ => true end.

Definition slash : Ascii.ascii := "/"%char.

(** ** The parts kept in helper modules

    [notEmpty], [standardizeRecord], [detectFields] and [stringFallback] are
    imported by the data source from sibling modules.  What those modules
    leave open (how a value is canonicalised, how a value is rendered as a
    string, which strings look like dates or numbers) is an interface. *)
Class Helpers := {
  standardizeValue : Value → Value;
  renderString : Value → string;
  isDateLike : string → bool;
  isNumericLike : string → bool;
}.

(** Modelled from the spec: [notEmpty] of the helpers module is not part of
    the sources at hand.  A value is empty when it is [null], [undefined],
    the empty string or the empty list. *)
Definition notEmpty (value : Value) : bool :=
  match value with
  | VUndefined | VNull => false
  | VString EmptyString => false
  | VList [] => false
  | _ => true
  end.

(** Modelled from the spec: [standardizeRecord] of the front matter helpers
    is not part of the sources at hand.  The record takes the given id and
    every stored value goes through the type-specific canonicalisation. *)
Definition standardizeRecord `{Helpers}
    (id : string) (values : gmap string Value) : DataRecord :=
  {| id := id; values := standardizeValue <$> values |}.

(** *** Value classifier *)

Record Observation := {
  obsType : DataFieldType.t;
  obsRepeated : bool;
}.

(** Modelled from the spec: the classifier of scalars is not part of the
    sources at hand.  Date-like strings are dates, boolean literals are
    booleans, numeric literals and unambiguous numeric strings are numbers,
    any other string is a string; what cannot be classified is unknown. *)
Definition classifyScalar `{Helpers} (value : Value) : DataFieldType.t :=
  match value with
  | VString s =>
      if isDateLike s then DataFieldType.Date
      else if isNumericLike s then DataFieldType.Number
      else DataFieldType.String
  | VBool _ => DataFieldType.Boolean
  | VNumber _ => DataFieldType.Number
  | _ => DataFieldType.Unknown
  end.

(** Modelled from the spec: a list is a repeated observation whose element
    type comes from its first non-empty element, unknown when there is
    none. *)
Definition classify `{Helpers} (value : Value) : Observation :=
  match value with
  | VList vs =>
      {| obsType := match filter (λ v, notEmpty v = true) vs with
                    | v :: _ => classifyScalar v
                    | [] => DataFieldType.Unknown
                    end;
         obsRepeated := true |}
  | _ => {| obsType := classifyScalar value; obsRepeated := false |}
  end.

(** *** Consensus typing *)

Definition votes (t : DataFieldType.t) (observed : list DataFieldType.t) : nat :=
  length (filter (λ o, o = t) observed).

Definition candidates : list DataFieldType.t :=
  [DataFieldType.String; DataFieldType.Number;
   DataFieldType.Boolean; DataFieldType.Date].

(** Modelled from the spec: the consensus type of a key is the most
    frequent type among its observations that are not unknown; ties go to
    the string type; a key with unknown observations only stays unknown. *)
Definition consensus (observed : list DataFieldType.t) : DataFieldType.t :=
  let top := max_list ((λ t, votes t observed) <$> candidates) in
  if Nat.eqb top 0 then DataFieldType.Unknown
  else match filter (λ t, votes t observed = top) candidates with
       | [t] => t
       | _ => DataFieldType.String
       end.

(** One record's contribution to the per-key observations. *)
Definition observe `{Helpers}
    (seen : gmap string (list Observation)) (record : DataRecord)
    : gmap string (list Observation) :=
  union_with (λ old new, Some (old ++ new))
    seen ((λ v, [classify v]) <$> values record).

(** What the records say about one key, in record order. *)
Definition observations `{Helpers}
    (key : string) (records : list DataRecord) : list Observation :=
  omap (λ record, classify <$> values record !! key) records.

Definition fieldOf (key : string) (obs : list Observation) : DataField :=
  {| name := key;
     type := consensus (obsType <$> obs);
     repeated := existsb obsRepeated obs;
     identifier := false;
     derived := false;
     typeConfig := None |}.

(** Modelled from the spec: [detectFields] of the data source helpers is not
    part of the sources at hand.  One scan over the records collects, per
    key, the observed types and whether a list was seen; every key then
    becomes a field with its consensus type. *)
Definition detectFields `{Helpers} (records : list DataRecord) : list DataField :=
  (map_to_list (map_imap (λ key obs, Some (fieldOf key obs))
                  (foldl observe ∅ records))).*2.

(** Modelled from the spec: the rewrite [stringFallback] applies to one
    record.  A value stored under the field that is not a plain string is
    replaced by its string rendering; a record without a value under the
    field is left as it is. *)
Definition fallbackRecord `{Helpers} (field : string) (record : DataRecord)
    : DataRecord :=
  match values record !! field with
  | None | Some (VString _) => record
  | Some v =>
      {| id := id record;
         values := <[field := VString (renderString v)]> (values record) |}
  end.

(** Modelled from the spec: [stringFallback] of the data source helpers is
    not part of the sources at hand.  Every record is rewritten for the
    given field. *)
Definition stringFallback `{Helpers}
    (records : list DataRecord) (field : string) : list DataRecord :=
  fallbackRecord field <$> records.

(** The value a record holds under a key, if any, is a plain string. *)
Definition plainAt (key : string) (record : DataRecord) : Prop :=
  ∀ v, values record !! key = Some v → ∃ s, v = VString s.

(** ** The data source *)

(** The body of the loop of [parseRecords] for a file whose cache entry
    exists: drop [position], keep the non-empty entries, set [path] and
    [name], standardize. *)
Definition extractRecord `{Helpers}
    (file : TFile.t) (cache : CachedMetadata) : DataRecord :=
  let values := delete "position" (default ∅ (frontmatter cache)) in
  let filteredValues := filter (λ kv, notEmpty kv.2 = true) values in
  let filteredValues :=
    <["path" := VString (TFile.path file)]> filteredValues in
  let filteredValues :=
    <["name" := VString (TFile.basename file)]> filteredValues in
  standardizeRecord (TFile.path file) filteredValues.

(** [parseRecords]: one pass over the files, pushing a record for every file
    the metadata cache knows. *)
Definition parseRecords `{Helpers}
    (files : list TFile.t) (metadataCache : MetadataCache) : list DataRecord :=
  foldl
    (λ records file,
       match getFileCache metadataCache file with
       | Some cache => records ++ [extractRecord file cache]
       | None => records
       end)
    [] files.

(** [detectSchema]: the detected fields, with [name] and [path] marked as
    derived and [path] marked as the identifier. *)
Definition detectSchema `{Helpers} (records : list DataRecord) : list DataField :=
  (λ field,
     if decide (name field = "path")
     then {| name := name field; type := type field;
             repeated := repeated field; identifier := true;
             derived := derived field; typeConfig := typeConfig field |}
     else field)
  <$> ((λ field,
          if decide (name field = "name" ∨ name field = "path")
          then {| name := name field; type := type field;
                  repeated := repeated field; identifier := identifier field;
                  derived := true; typeConfig := typeConfig field |}
          else field)
       <$> detectFields records).

(** The two passes of [detectSchema] over one field. *)
Definition markField (field : DataField) : DataField :=
  let field :=
    if decide (name field = "name" ∨ name field = "path")
    then {| name := name field; type := type field;
            repeated := repeated field; identifier := identifier field;
            derived := true; typeConfig := typeConfig field |}
    else field in
  if decide (name field = "path")
  then {| name := name field; type := type field;
          repeated := repeated field; identifier := true;
          derived := derived field; typeConfig := typeConfig field |}
  else field.

Record FrontMatterDataSource := {
  app : App;
  project : ProjectDefinition.t;
}.

(** [includes]: whether a path belongs to the project. *)
Definition includes (this : FrontMatterDataSource) (path : string) : bool :=
  let trimmedPath :=
    if startsWith (ProjectDefinition.path (project this)) "/"
    then slice1 (ProjectDefinition.path (project this))
    else ProjectDefinition.path (project this) in
  if negb (startsWith path trimmedPath) then false
  else if negb (ProjectDefinition.recursive (project this)) then
    let pathElements := dropLast (split slash path) in
    let projectPathElements := filter (λ el, truthy el = true) (split slash trimmedPath) in
    bool_decide (join "/" pathElements = join "/" projectPathElements)
  else true.

(** [queryFiles]: records, schema, then the string fallback for every field
    detected as a string. *)
Definition queryFiles `{Helpers}
    (this : FrontMatterDataSource) (files : list TFile.t) : DataFrame :=
  let records := parseRecords files (metadataCache (app this)) in
  let fields := detectSchema records in
  let records :=
    foldl stringFallback records
      (name <$> filter (λ field, type field = DataFieldType.String) fields) in
  {| fields := fields; records := records |}.

Definition queryOne `{Helpers}
    (this : FrontMatterDataSource) (file : TFile.t) : DataFrame :=
  queryFiles this [file].

Definition queryAll `{Helpers} (this : FrontMatterDataSource) : DataFrame :=
  let files :=
    filter (λ file, includes this (TFile.path file) = true)
      (getMarkdownFiles (vault (app this))) in
  queryFiles this files.

(** ** The board view

    The script of the board view keeps a frame and an optional
    configuration.  Its handlers compute the next configuration and hand it
    to [saveConfig], which stores it and reports it; they are modelled as
    the function from the current configuration to the stored one. *)

Record ColumnSettings := {
  weight : option Z;
}.

Module BoardConfig.

(** The entries of the configuration the view reads or writes; all of them
    are optional. *)
Record t := {
  groupByField : option string;
  priorityField : option string;
  columns : option (gmap string ColumnSettings);
  includeFields : option (list string);
  columnWidth : option Z;
}.

End BoardConfig.

(** What reading [object[key]] on a plain object gives: the value of an own
    entry, or a member inherited from [Object.prototype]. *)
Inductive Property (V : Type) :=
| OwnValue (value : V)
| PrototypeMember (key : string).

Arguments OwnValue {V} value.
Arguments PrototypeMember {V} key.

(** The names every plain object inherits from [Object.prototype]. *)
Definition objectPrototype : list string :=
  ["constructor"; "hasOwnProperty"; "isPrototypeOf"; "propertyIsEnumerable";
   "toLocaleString"; "toString"; "valueOf"; "__proto__";
   "__defineGetter__"; "__defineSetter__";
   "__lookupGetter__"; "__lookupSetter__"].

Module Column.

(** [records] is what [groupedRecords[column] ?? []] gave: a list of
    records, or an inherited member that is no list. *)
Record t := { id : string; records : Property (list DataRecord) }.

End Column.

(** [{ ...config }] for a configuration that may be undefined. *)
Definition spreadConfig (config : option BoardConfig.t) : BoardConfig.t :=
  default
    {| BoardConfig.groupByField := None; BoardConfig.priorityField := None;
       BoardConfig.columns := None; BoardConfig.includeFields := None;
       BoardConfig.columnWidth := None |}
    config.

(** *** Sets, sorting and objects of the host language *)

(** [s.add(x)]: a set keeps its elements in insertion order. *)
Definition setAdd (s : list string) (x : string) : list string :=
  if decide (x ∈ s) then s else s ++ [x].

(** [s.delete(x)] *)
Definition setDelete (s : list string) (x : string) : list string :=
  filter (λ y, y ≠ x) s.

(** [new Set(a)] *)
Definition newSet (a : list string) : list string := foldl setAdd [] a.

(** [Object.fromEntries(entries)]: a later entry replaces an earlier one of
    the same key. *)
Definition fromEntries {V} (entries : list (string * V)) : gmap string V :=
  foldl (λ object entry, <[entry.1 := entry.2]> object) ∅ entries.

(** [a.sort(compare)]: the sort is stable, so an element is placed before
    the first one it does not compare greater than. *)
Fixpoint insertSorted {A} (compare : A → A → Z) (x : A) (sorted : list A)
    : list A :=
  match sorted with
  | [] => [x]
  | y :: rest =>
      if (compare x y <=? 0)%Z then x :: y :: rest
      else y :: insertSorted compare x rest
  end.

Definition sort {A} (compare : A → A → Z) (a : list A) : list A :=
  foldr (insertSorted compare) [] a.

(** [object[key]] for a plain object given by its own entries: the own entry
    of that key if there is one, else the member of that name inherited from
    [Object.prototype], else undefined. *)
Definition entryOf {V} (object : list (string * V)) (key : string)
    : option (Property V) :=
  match List.find (λ entry, bool_decide (entry.1 = key)) object with
  | Some entry => Some (OwnValue entry.2)
  | None =>
      if decide (key ∈ objectPrototype) then Some (PrototypeMember key)
      else None
  end.

(** *** The script of the view *)

(** [fields.find((field) => config?.groupByField === field.name)] *)
Definition groupByField
    (config : option BoardConfig.t) (fields : list DataField) : option DataField :=
  match config ≫= BoardConfig.groupByField with
  | Some key => List.find (λ field, bool_decide (key = name field)) fields
  | None => None
  end.

(** [config?.columns?.[a]?.weight ?? 0] *)
Definition columnWeight (config : option BoardConfig.t) (a : string) : Z :=
  let settings : option ColumnSettings :=
    columns ← config ≫= BoardConfig.columns; columns !! a in
  default 0%Z (settings ≫= weight).

(** The comparison function handed to [sort] in [getColumns]. *)
Definition compareColumns (config : option BoardConfig.t) (a b : string) : Z :=
  let aweight := columnWeight config a in
  let bweight := columnWeight config b in
  if (aweight <? bweight)%Z then (-1)%Z
  else if (aweight >? bweight)%Z then 1%Z
  else 0%Z.

(** [getColumns]: the keys of the given groups, then the options of a
    string-typed grouping field, sorted by weight; every column takes its
    records from the grouped records of the view. *)
Definition getColumns
    (config : option BoardConfig.t) (groupByField : option DataField)
    (groupedRecords : list (string * list DataRecord))
    (records : list (string * list DataRecord)) : list Column.t :=
  let columns := newSet (fst <$> records) in
  let columns :=
    if decide (type <$> groupByField = Some DataFieldType.String)
    then foldl setAdd columns (default [] (groupByField ≫= typeConfig))
    else columns in
  (λ column,
     {| Column.id := column;
        Column.records :=
          default (OwnValue []) (entryOf groupedRecords column) |})
  <$> sort (compareColumns config) columns.

(** The handler of [onSortColumns]: every name gets its position as
    weight. *)
Definition onSortColumns
    (config : option BoardConfig.t) (names : list string) : BoardConfig.t :=
  let config := spreadConfig config in
  {| BoardConfig.groupByField := BoardConfig.groupByField config;
     BoardConfig.priorityField := BoardConfig.priorityField config;
     BoardConfig.columns := Some
       (fromEntries
          (imap (λ i name, (name, {| weight := Some (Z.of_nat i) |})) names));
     BoardConfig.includeFields := BoardConfig.includeFields config;
     BoardConfig.columnWidth := BoardConfig.columnWidth config |}.

(** [handleIncludeFieldChange]: add the field to the included fields or
    take it out, and store the configuration. *)
Definition handleIncludeFieldChange
    (config : option BoardConfig.t) (field : string) (enabled : bool)
    : BoardConfig.t :=
  let includedFields := newSet (default [] (config ≫= BoardConfig.includeFields)) in
  let includedFields :=
    if enabled then setAdd includedFields field
    else setDelete includedFields field in
  let config := spreadConfig config in
  {| BoardConfig.groupByField := BoardConfig.groupByField config;
     BoardConfig.priorityField := BoardConfig.priorityField config;
     BoardConfig.columns := BoardConfig.columns config;
     BoardConfig.includeFields := Some includedFields;
     BoardConfig.columnWidth := BoardConfig.columnWidth config |}.

(** [!!config?.includeFields?.includes(field.name)] *)
Definition fieldIncluded (config : option BoardConfig.t) (field : DataField) : bool :=
  bool_decide (name field ∈ default [] (config ≫= BoardConfig.includeFields)).

(** The fields handed to the board: those the configuration includes. *)
Definition boardFields
    (config : option BoardConfig.t) (fields : list DataField) : list DataField :=
  filter (λ field, fieldIncluded config field = true) fields.

(** ** Sample vaults *)

(** Helper modules that canonicalise nothing, render booleans and numbers
    crudely and see no dates or numbers in strings. *)
Definition plainHelpers : Helpers :=
  {| standardizeValue := λ v, v;
     renderString := λ v,
       match v with
       | VString s => s
       | VBool true => "true"
       | VBool false => "false"
       | _ => "?"
       end;
     isDateLike := λ _, false;
     isNumericLike := λ _, false |}.







Definition noteA : TFile.t :=
  {| TFile.path := "Projects/a.md"; TFile.basename := "a" |}.

Definition noteB : TFile.t :=
  {| TFile.path := "Projects/b.md"; TFile.basename := "b" |}.

(** A cache that knows no file at all. *)
Definition noMetadata : MetadataCache :=
  {| getFileCache := λ _, None |}.

(** A cache that knows every file, none of them with front matter. *)
Definition noFrontMatter : MetadataCache :=
  {| getFileCache := λ _, Some {| frontmatter := None |} |}.

(** The cache entry of note a: [status: todo], [cost: 3], an empty [owner]
    and the position of the block. *)
Definition noteAEntry : CachedMetadata :=
  {| frontmatter := Some
       (<["status" := VString "todo"]>
          (<["cost" := VNumber 3]>
             (<["owner" := VNull]>
                (<["position" := VObject []]> ∅)))) |}.

(** The cache entry of note b: [status] is a boolean. *)
Definition noteBEntry : CachedMetadata :=
  {| frontmatter := Some (<["status" := VBool true]> ∅) |}.

Definition sampleCache : MetadataCache :=
  {| getFileCache := λ file,
       if decide (TFile.path file = "Projects/a.md") then Some noteAEntry
       else if decide (TFile.path file = "Projects/b.md") then Some noteBEntry
       else None |}.

(** A vault of one note that the metadata cache does not know yet. *)
Definition unindexedHost : App :=
  {| vault := {| getMarkdownFiles := [noteA] |};
     metadataCache := noMetadata |}.

Definition sampleHost : App :=
  {| vault := {| getMarkdownFiles := [noteA; noteB] |};
     metadataCache := sampleCache |}.

(** A cache entry whose front matter has keys of its own named [path] and
    [name], the first of them empty. *)
Definition shadowingEntry : CachedMetadata :=
  {| frontmatter := Some
       (<["path" := VNull]> (<["name" := VString "mine"]> ∅)) |}.

(** The records of the two sample notes, in both orders. *)
Definition sampleRecords : list DataRecord :=
  @parseRecords plainHelpers [noteA; noteB] sampleCache.

Definition sampleRecordsSwapped : list DataRecord :=
  @parseRecords plainHelpers [noteB; noteA] sampleCache.

(** A board on a status field with three options; two of them have a
    group. *)
Definition statusField : DataField :=
  {| name := "status"; type := DataFieldType.String; repeated := false;
     identifier := false; derived := false;
     typeConfig := Some ["todo"; "doing"; "done"] |}.

(** A string field one of whose options is named like a member every
    object inherits. *)
Definition kindField : DataField :=
  {| name := "kind"; type := DataFieldType.String; repeated := false;
     identifier := false; derived := false;
     typeConfig := Some ["constructor"] |}.

Definition sampleGroups : list (string * list DataRecord) :=
  [("todo", [{| id := "Projects/a.md"; values := ∅ |}]);
   ("done", [{| id := "Projects/b.md"; values := ∅ |}])].

Definition sampleBoard : BoardConfig.t :=
  {| BoardConfig.groupByField := Some "status";
     BoardConfig.priorityField := None;
     BoardConfig.columns := None;
     BoardConfig.includeFields := Some ["status"];
     BoardConfig.columnWidth := None |}.

(** A project on a given host. *)
Definition withProject (host : App) (root : string) (recursive : bool)
    : FrontMatterDataSource :=
  {| app := host;
     project := {| ProjectDefinition.path := root;
                   ProjectDefinition.recursive := recursive |} |}.

(** A decidable proposition settled by evaluating its decision. *)
Ltac by_evaluation := apply (bool_decide_unpack _); vm_compute; exact I.

(** Membership in a list written out. *)
Ltac pick_element :=
  first [apply list_elem_of_here | apply list_elem_of_further; pick_element].

(** * Source selector *)

(** C2. With root "Projects": without recursion a direct child is included,
    a grandchild and a note of another folder are not; with recursion child
    and grandchild are included and the note of the other folder is not. *)
Theorem includes_selector_boundary (host : App) :
  includes (withProject host "Projects" false) "Projects/a.md" = true ∧
  includes (withProject host "Projects" false) "Projects/Sub/b.md" = false ∧
  includes (withProject host "Projects" false) "Other/a.md" = false ∧
  includes (withProject host "Projects" true) "Projects/a.md" = true ∧
  includes (withProject host "Projects" true) "Projects/Sub/b.md" = true ∧
  includes (withProject host "Projects" true) "Other/a.md" = false.
Proof. repeat split; reflexivity. Qed.

(** With recursion the selector is the textual prefix test and nothing
    else. *)
Lemma includes_recursive_prefix (host : App) (root path : string) :
  includes (withProject host root true) path =
  startsWith path (if startsWith root "/" then slice1 root else root).
Proof. unfold includes; simpl. by destruct (startsWith path _). Qed.

(** C6. Prefix matching is textual: with root "Note" and recursion the note
    "Notes/x.md" is included; without recursion the comparison of the
    directories rejects it. *)
Theorem includes_textual_prefix (host : App) :
  includes (withProject host "Note" true) "Notes/x.md" = true ∧
  includes (withProject host "Note" false) "Notes/x.md" = false ∧
  (∀ root path,
     includes (withProject host root true) path =
     startsWith path (if startsWith root "/" then slice1 root else root)).
Proof.
  split; [reflexivity|]. split; [reflexivity|].
  intros root path. apply includes_recursive_prefix.
Qed.

(** * Record extractor *)

Section extractor.
Context `{Helpers}.

Implicit Types (file : TFile.t) (cache : CachedMetadata).
Implicit Types (files : list TFile.t) (mc : MetadataCache).

Lemma parseRecords_loop files mc (pushed : list DataRecord) :
  foldl (λ records file,
           match getFileCache mc file with
           | Some cache => records ++ [extractRecord file cache]
           | None => records
           end) pushed files =
  pushed ++ omap (λ file, extractRecord file <$> getFileCache mc file) files.
Proof.
  revert pushed. induction files as [|file files IH]; intros pushed; simpl.
  - by rewrite app_nil_r.
  - rewrite IH. destruct (getFileCache mc file); simpl; [|done].
    by rewrite <- app_assoc.
Qed.

(** The loop of [parseRecords] keeps the files the cache knows, in order. *)
Lemma parseRecords_omap files mc :
  parseRecords files mc =
  omap (λ file, extractRecord file <$> getFileCache mc file) files.
Proof. unfold parseRecords. by rewrite parseRecords_loop. Qed.

Lemma elem_of_parseRecords files mc record :
  record ∈ parseRecords files mc ↔
  ∃ file cache, file ∈ files ∧ getFileCache mc file = Some cache ∧
                record = extractRecord file cache.
Proof.
  rewrite parseRecords_omap, list_elem_of_omap. split.
  - intros (file & Hin & Hrec).
    destruct (getFileCache mc file) as [cache|] eqn:Hc; simplify_eq/=.
    by exists file, cache.
  - intros (file & cache & Hin & Hc & ->). exists file. by rewrite Hc.
Qed.

Lemma extractRecord_id file cache :
  id (extractRecord file cache) = TFile.path file.
Proof. done. Qed.

Lemma extractRecord_path file cache :
  values (extractRecord file cache) !! "path" =
  Some (standardizeValue (VString (TFile.path file))).
Proof.
  unfold extractRecord, standardizeRecord; simpl.
  rewrite lookup_fmap, lookup_insert_ne by done.
  by rewrite lookup_insert_eq.
Qed.

Lemma extractRecord_name file cache :
  values (extractRecord file cache) !! "name" =
  Some (standardizeValue (VString (TFile.basename file))).
Proof.
  unfold extractRecord, standardizeRecord; simpl.
  by rewrite lookup_fmap, lookup_insert_eq.
Qed.

(** Any other key comes from the front matter, and only when its value is
    not empty and the key is not [position]. *)
Lemma extractRecord_other file cache key :
  key ≠ "path" → key ≠ "name" →
  values (extractRecord file cache) !! key =
  standardizeValue <$>
    (if decide (key = "position") then None
     else v ← default ∅ (frontmatter cache) !! key;
          if notEmpty v then Some v else None).
Proof.
  intros Hp Hn. unfold extractRecord, standardizeRecord; simpl.
  rewrite lookup_fmap, !lookup_insert_ne by done. f_equal.
  rewrite map_lookup_filter. case_decide as Hpos.
  - subst key. by rewrite lookup_delete_eq.
  - rewrite lookup_delete_ne by done.
    destruct (default ∅ (frontmatter cache) !! key) as [v|]; simpl; [|done].
    case_guard as Hg; simpl in Hg; rewrite Hg || destruct (notEmpty v); done.
Qed.

Lemma extractRecord_dom file cache :
  dom (values (extractRecord file cache)) =
  {["name"; "path"]} ∪
  dom (filter (λ kv, notEmpty kv.2 = true)
         (delete "position" (default ∅ (frontmatter cache)))).
Proof.
  unfold extractRecord, standardizeRecord; simpl.
  rewrite dom_fmap_L, !dom_insert_L.
  by rewrite (assoc_L (∪)), <- (comm_L (∪) {["path"]}).
Qed.

(** Every record built by [parseRecords] carries a [path] and a [name]. *)
Lemma parseRecords_has_path files mc :
  Forall (λ record, is_Some (values record !! "path")) (parseRecords files mc).
Proof.
  apply Forall_forall. intros record (file & cache & _ & _ & ->)%elem_of_parseRecords.
  rewrite extractRecord_path. eauto.
Qed.

(** One record per file the cache knows, in the order of the files. *)
Lemma parseRecords_ids files mc :
  id <$> parseRecords files mc =
  TFile.path <$> filter (λ file, is_Some (getFileCache mc file)) files.
Proof.
  rewrite parseRecords_omap.
  induction files as [|file files IH]; [done|]. simpl.
  rewrite filter_cons. destruct (getFileCache mc file) as [cache|] eqn:Hc; simpl.
  - f_equal. apply IH.
  - apply IH.
Qed.

(** C3, as the code has it. A file whose cache entry exists but holds no
    front matter is treated as one with an empty dictionary and yields a
    record with exactly the keys [path] and [name]; a file the metadata
    cache does not know yields no record; the output holds one record, in
    order, for each file the cache knows. *)
Theorem parseRecords_per_cached_file files mc :
  id <$> parseRecords files mc =
    TFile.path <$> filter (λ file, is_Some (getFileCache mc file)) files ∧
  (∀ file cache,
     getFileCache mc file = Some cache → frontmatter cache = None →
     ∃ record, parseRecords [file] mc = [record] ∧
               id record = TFile.path file ∧
               dom (values record) = {["path"; "name"]}) ∧
  (∀ file, getFileCache mc file = None → parseRecords [file] mc = []).
Proof.
  split; [|split].
  - apply parseRecords_ids.
  - intros file cache Hc Hfm. exists (extractRecord file cache).
    split; [|split; [done|]].
    + rewrite parseRecords_omap; simpl. by rewrite Hc.
    + rewrite extractRecord_dom, Hfm; simpl.
      rewrite delete_empty, map_filter_empty, dom_empty_L.
      by rewrite (right_id_L ∅ (∪)), (comm_L (∪)).
  - intros file Hc. rewrite parseRecords_omap; simpl. by rewrite Hc.
Qed.


(** C8, as the code has it. A front matter key other than [path] and [name]
    whose value is empty is not a key of the extracted record, and
    [position] never is. *)
Theorem extractRecord_drops_empty file cache :
  values (extractRecord file cache) !! "position" = None ∧
  (∀ key v,
     key ≠ "path" → key ≠ "name" →
     default ∅ (frontmatter cache) !! key = Some v → notEmpty v = false →
     values (extractRecord file cache) !! key = None).
Proof.
  split.
  - by rewrite extractRecord_other.
  - intros key v Hp Hn Hk Hv. rewrite extractRecord_other by done.
    case_decide; [done|]. by rewrite Hk; simpl; rewrite Hv.
Qed.

End extractor.

(** * Schema detector *)

Section detector.
Context `{Helpers}.

Implicit Types (records : list DataRecord) (obs : list Observation).
Implicit Types (observed : list DataFieldType.t) (key : string).

(** ** Consensus depends on the vote counts only *)

Lemma votes_Permutation t observed1 observed2 :
  observed1 ≡ₚ observed2 → votes t observed1 = votes t observed2.
Proof. intros Hp. unfold votes. by rewrite Hp. Qed.

Lemma consensus_votes observed1 observed2 :
  (∀ t, votes t observed1 = votes t observed2) →
  consensus observed1 = consensus observed2.
Proof.
  intros Hv. unfold consensus, candidates. cbn [fmap list_fmap].
  rewrite !Hv.
  by rewrite (list_filter_iff _ (λ t, votes t observed2 = _))
    by (intros t; by rewrite Hv).
Qed.

Lemma consensus_Permutation observed1 observed2 :
  observed1 ≡ₚ observed2 → consensus observed1 = consensus observed2.
Proof. intros Hp. apply consensus_votes. intros t. by apply votes_Permutation. Qed.

(** Two types with the same positive number of votes, and no vote for any
    other known type: the string type is chosen. *)
Lemma consensus_tie observed a b :
  a ≠ b → a ≠ DataFieldType.Unknown → b ≠ DataFieldType.Unknown →
  0 < votes a observed → votes a observed = votes b observed →
  (∀ t, t ≠ a → t ≠ b → t ≠ DataFieldType.Unknown → votes t observed = 0) →
  consensus observed = DataFieldType.String.
Proof.
  intros Hab Ha Hb Hpos Heq Hrest.
  pose proof (Hrest DataFieldType.String) as Hs.
  pose proof (Hrest DataFieldType.Number) as Hn.
  pose proof (Hrest DataFieldType.Boolean) as Hbo.
  pose proof (Hrest DataFieldType.Date) as Hd.
  unfold consensus, candidates.
  cbn [fmap list_fmap max_list max_list_with]. unfold Datatypes.id.
  rewrite !filter_cons, filter_nil.
  destruct (Nat.eqb _ 0) eqn:Htop;
    [apply Nat.eqb_eq in Htop|apply Nat.eqb_neq in Htop];
    destruct a, b; try done;
    try specialize (Hs ltac:(done) ltac:(done) ltac:(done));
    try specialize (Hn ltac:(done) ltac:(done) ltac:(done));
    try specialize (Hbo ltac:(done) ltac:(done) ltac:(done));
    try specialize (Hd ltac:(done) ltac:(done) ltac:(done));
    try lia; repeat case_decide; try done; lia.
Qed.

Lemma existsb_Permutation {A} (f : A → bool) (l1 l2 : list A) :
  l1 ≡ₚ l2 → existsb f l1 = existsb f l2.
Proof.
  induction 1 as [|x l1 l2 _ IH|x y l|l1 l2 l3 _ IH1 _ IH2]; simpl.
  - done.
  - by rewrite IH.
  - by destruct (f x), (f y).
  - by rewrite IH1.
Qed.

Lemma fieldOf_Permutation key obs1 obs2 :
  obs1 ≡ₚ obs2 → fieldOf key obs1 = fieldOf key obs2.
Proof.
  intros Hp. unfold fieldOf.
  rewrite (consensus_Permutation (obsType <$> obs1) (obsType <$> obs2))
    by (by rewrite Hp).
  by rewrite (existsb_Permutation _ obs1 obs2).
Qed.

(** ** The scan *)

Lemma observe_lookup (seen : gmap string (list Observation)) record key :
  observe seen record !! key =
  union_with (λ old new, Some (old ++ new))
    (seen !! key) ((λ v, [classify v]) <$> values record !! key).
Proof. unfold observe. by rewrite lookup_union_with, lookup_fmap. Qed.

Lemma scan_lookup records (seen : gmap string (list Observation)) key :
  foldl observe seen records !! key =
  match seen !! key, observations key records with
  | None, [] => None
  | None, obs => Some obs
  | Some old, obs => Some (old ++ obs)
  end.
Proof.
  revert seen. induction records as [|record records IH]; intros seen; simpl.
  - destruct (seen !! key); [by rewrite app_nil_r|done].
  - rewrite IH, observe_lookup. unfold observations at 2; simpl.
    fold (observations key records).
    destruct (seen !! key) as [old|], (values record !! key) as [v|]; simpl;
      destruct (observations key records); simpl;
      by rewrite <- ?app_assoc, ?app_nil_r.
Qed.

Lemma scan_lookup_empty records key :
  foldl observe ∅ records !! key =
  match observations key records with [] => None | obs => Some obs end.
Proof. by rewrite scan_lookup, lookup_empty. Qed.

Lemma observations_Permutation key records1 records2 :
  records1 ≡ₚ records2 → observations key records1 ≡ₚ observations key records2.
Proof. intros Hp. unfold observations. by rewrite Hp. Qed.

(** The fields, as a dictionary from key to field. *)
Lemma detected_lookup records key :
  map_imap (λ key obs, Some (fieldOf key obs)) (foldl observe ∅ records) !! key =
  match observations key records with
  | [] => None
  | obs => Some (fieldOf key obs)
  end.
Proof.
  rewrite map_lookup_imap, scan_lookup_empty.
  by destruct (observations key records).
Qed.

Lemma elem_of_detectFields records field :
  field ∈ detectFields records ↔
  ∃ key, observations key records ≠ [] ∧
         field = fieldOf key (observations key records).
Proof.
  unfold detectFields. rewrite list_elem_of_fmap. split.
  - intros ([key f] & -> & Hin). apply elem_of_map_to_list in Hin.
    rewrite detected_lookup in Hin. exists key.
    destruct (observations key records); by simplify_eq/=.
  - intros (key & Hne & ->). exists (key, fieldOf key (observations key records)).
    split; [done|]. apply elem_of_map_to_list. rewrite detected_lookup.
    by destruct (observations key records).
Qed.

Lemma detectFields_Permutation records1 records2 :
  records1 ≡ₚ records2 → detectFields records1 = detectFields records2.
Proof.
  intros Hp. unfold detectFields. do 2 f_equal. apply map_eq. intros key.
  rewrite !detected_lookup.
  pose proof (observations_Permutation key _ _ Hp) as Hobs.
  destruct (observations key records1) as [|o1 obs1] eqn:H1.
  - apply Permutation_nil_l in Hobs. by rewrite <- Hobs.
  - destruct (observations key records2) as [|o2 obs2] eqn:H2.
    + by apply Permutation_nil_r in Hobs.
    + f_equal. by apply fieldOf_Permutation.
Qed.

(** ** The two passes of [detectSchema] *)

Lemma detectSchema_markField records :
  detectSchema records = markField <$> detectFields records.
Proof.
  unfold detectSchema. rewrite <- list_fmap_compose.
  apply list_fmap_ext. intros _ field _. unfold markField; simpl.
  by repeat case_decide.
Qed.

Lemma markField_name field : name (markField field) = name field.
Proof. unfold markField. by repeat case_decide. Qed.

Lemma markField_type field : type (markField field) = type field.
Proof. unfold markField. by repeat case_decide. Qed.

Lemma markField_derived field :
  name field = "path" ∨ name field = "name" → derived (markField field) = true.
Proof.
  intros Hn. unfold markField.
  repeat case_decide; simpl in *; try done; tauto.
Qed.

Lemma markField_identifier key obs :
  identifier (markField (fieldOf key obs)) = true ↔ key = "path".
Proof. unfold markField; simpl. repeat case_decide; naive_solver. Qed.

Lemma filter_unique {A} (P : A → Prop) `{∀ x, Decision (P x)} (l l' : list A) x :
  l ≡ₚ x :: l' → P x → (∀ y, y ∈ l' → ¬ P y) → filter P l = [x].
Proof.
  intros Hp Hx Hl'. apply Permutation_singleton_r.
  rewrite Hp, filter_cons_True by done.
  replace (filter P l') with (@nil A); [done|].
  symmetry. clear Hp. induction l' as [|y l' IH]; [done|].
  rewrite filter_cons_False by (apply Hl'; left).
  apply IH. intros z Hz. apply Hl'. by right.
Qed.

(** ** Identifier and derived fields *)

(** C1. For a non-empty list of records, each carrying a [path] value as
    every extracted record does, exactly one detected field is an
    identifier, it is named "path", and every field named "path" or "name"
    is derived. *)
Theorem detectSchema_identifier records :
  records ≠ [] →
  Forall (λ record, is_Some (values record !! "path")) records →
  (∃ field,
     filter (λ f, identifier f = true) (detectSchema records) = [field] ∧
     name field = "path") ∧
  (∀ field,
     field ∈ detectSchema records →
     name field = "path" ∨ name field = "name" → derived field = true).
Proof.
  intros Hne Hall. rewrite detectSchema_markField. split.
  - destruct records as [|record records]; [done|].
    apply Forall_cons_1 in Hall as [[v Hv] _].
    set (obs := observations "path" (record :: records)).
    assert (obs ≠ []) as Hobs.
    { unfold obs, observations; simpl. by rewrite Hv. }
    pose proof (detected_lookup (record :: records) "path") as Hpath.
    fold obs in Hpath. destruct obs as [|o obs]; [done|].
    exists (markField (fieldOf "path" (o :: obs))).
    split; [|by rewrite markField_name].
    eapply filter_unique.
    + unfold detectFields.
      rewrite <- (map_to_list_delete _ "path" _ Hpath).
      rewrite !fmap_cons. reflexivity.
    + by apply markField_identifier.
    + intros y ([key f] & -> & Hin)%list_elem_of_fmap.
      apply list_elem_of_fmap in Hin as ([key' f'] & [= <-] & Hin).
      apply elem_of_map_to_list, lookup_delete_Some in Hin as [Hkey Hin].
      rewrite detected_lookup in Hin.
      destruct (observations key' (record :: records)); [done|].
      apply (inj Some) in Hin as <-. simpl.
      intros Hid%markField_identifier. congruence.
  - intros field (f & -> & _)%list_elem_of_fmap Hname.
    rewrite markField_name in Hname. by apply markField_derived.
Qed.

(** ** Order of the records *)

(** C5. Detection over a permutation of the records yields the same fields,
    each with the same name, type and flags; and a key whose observations
    split evenly between two known types gets the string type, in whatever
    order the records come. *)
Theorem detectSchema_order_independent records1 records2 :
  records1 ≡ₚ records2 →
  detectSchema records1 ≡ₚ detectSchema records2 ∧
  (∀ key a b,
     a ≠ b → a ≠ DataFieldType.Unknown → b ≠ DataFieldType.Unknown →
     0 < votes a (obsType <$> observations key records1) →
     votes a (obsType <$> observations key records1) =
       votes b (obsType <$> observations key records1) →
     (∀ t, t ≠ a → t ≠ b → t ≠ DataFieldType.Unknown →
           votes t (obsType <$> observations key records1) = 0) →
     ∃ field, field ∈ detectSchema records1 ∧ field ∈ detectSchema records2 ∧
              name field = key ∧ type field = DataFieldType.String).
Proof.
  intros Hp. rewrite !detectSchema_markField.
  rewrite <- (detectFields_Permutation _ _ Hp). split; [done|].
  intros key a b Hab Ha Hb Hpos Heq Hrest.
  exists (markField (fieldOf key (observations key records1))).
  assert (markField (fieldOf key (observations key records1))
          ∈ markField <$> detectFields records1).
  { apply list_elem_of_fmap_2, elem_of_detectFields. exists key.
    split; [|done]. intros Hnil. rewrite Hnil in Hpos.
    unfold votes in Hpos; simpl in Hpos. lia. }
  repeat split; try done.
  - by rewrite markField_name.
  - rewrite markField_type.
    change (consensus (obsType <$> observations key records1)
            = DataFieldType.String).
    by apply (consensus_tie _ a b).
Qed.

End detector.

(** * Fallback normalizer *)

Section normalizer.
Context `{Helpers}.

Implicit Types (records : list DataRecord) (record : DataRecord).
Implicit Types (field key : string) (names : list string).

Lemma fallbackRecord_id field record :
  id (fallbackRecord field record) = id record.
Proof.
  unfold fallbackRecord.
  by destruct (values record !! field) as [[]|].
Qed.

(** The rewrite never adds or removes a key. *)
Lemma fallbackRecord_dom field record :
  dom (values (fallbackRecord field record)) = dom (values record).
Proof.
  unfold fallbackRecord.
  destruct (values record !! field) as [v|] eqn:Hv; [|done].
  assert (field ∈ dom (values record)) by (apply elem_of_dom; eauto).
  destruct v; simpl; try done; rewrite dom_insert_L;
    by apply subseteq_union_1_L, singleton_subseteq_l.
Qed.

(** After the rewrite the value under the field is a plain string. *)
Lemma fallbackRecord_plain field record :
  plainAt field (fallbackRecord field record).
Proof.
  intros v. unfold fallbackRecord.
  destruct (values record !! field) as [w|] eqn:Hw.
  - destruct w; simpl; rewrite ?lookup_insert_eq, ?Hw;
      intros [= <-]; eauto.
  - by rewrite Hw.
Qed.

(** A key that holds a plain string keeps holding one. *)
Lemma fallbackRecord_keeps_plain field key record :
  plainAt key record → plainAt key (fallbackRecord field record).
Proof.
  intros Hplain. destruct (decide (key = field)) as [->|Hne].
  - apply fallbackRecord_plain.
  - intros v. unfold fallbackRecord.
    destruct (values record !! field) as [[]|]; simpl;
      rewrite ?lookup_insert_ne by done; apply Hplain.
Qed.

Lemma fallbackRecord_idemp field record :
  fallbackRecord field (fallbackRecord field record) =
  fallbackRecord field record.
Proof.
  unfold fallbackRecord at 2.
  destruct (values record !! field) as [v|] eqn:Hv.
  - destruct v; unfold fallbackRecord; simpl;
      by rewrite ?lookup_insert_eq, ?Hv.
  - unfold fallbackRecord. by rewrite Hv.
Qed.

(** C9. The fallback normalizer is idempotent: a second pass for the same
    field changes nothing. *)
Theorem stringFallback_idempotent records field :
  stringFallback (stringFallback records field) field =
  stringFallback records field.
Proof.
  unfold stringFallback. rewrite <- list_fmap_compose.
  apply list_fmap_ext. intros _ record _. apply fallbackRecord_idemp.
Qed.

(** ** The passes of [queryFiles] *)

Lemma fallbacks_ids records names :
  id <$> foldl stringFallback records names = id <$> records.
Proof.
  revert records. induction names as [|field names IH]; intros records; simpl.
  - done.
  - rewrite IH. unfold stringFallback. rewrite <- list_fmap_compose.
    apply list_fmap_ext. intros _ record _. apply fallbackRecord_id.
Qed.

Lemma fallbacks_dom records names :
  (λ record, dom (values record)) <$> foldl stringFallback records names =
  (λ record, dom (values record)) <$> records.
Proof.
  revert records. induction names as [|field names IH]; intros records; simpl.
  - done.
  - rewrite IH. unfold stringFallback. rewrite <- list_fmap_compose.
    apply list_fmap_ext. intros _ record _. apply fallbackRecord_dom.
Qed.

Lemma fallbacks_keep_plain key records names :
  Forall (plainAt key) records →
  Forall (plainAt key) (foldl stringFallback records names).
Proof.
  revert records. induction names as [|field names IH]; intros records Hall; simpl.
  - done.
  - apply IH. unfold stringFallback. apply Forall_fmap.
    eapply Forall_impl; [exact Hall|].
    intros record. apply fallbackRecord_keeps_plain.
Qed.

Lemma fallbacks_plain key records names :
  key ∈ names → Forall (plainAt key) (foldl stringFallback records names).
Proof.
  revert records. induction names as [|field names IH]; intros records Hin.
  - by apply elem_of_nil in Hin.
  - simpl. apply elem_of_cons in Hin as [->|Hin]; [|by apply IH].
    apply fallbacks_keep_plain. unfold stringFallback.
    apply Forall_fmap, Forall_forall. intros record _.
    apply fallbackRecord_plain.
Qed.

End normalizer.

(** * Data source *)

Section datasource.
Context `{Helpers}.

Implicit Types (this : FrontMatterDataSource) (files : list TFile.t).

(** C4. In the frame returned by [queryFiles], the value a record holds
    under a field detected as a string is, if present, a plain string; and
    every record has exactly the keys the extracted record had, so the
    fallback adds no value where there was none. *)
Theorem queryFiles_string_fields this files :
  (∀ field record v,
     field ∈ fields (queryFiles this files) →
     type field = DataFieldType.String →
     record ∈ records (queryFiles this files) →
     values record !! name field = Some v → ∃ s, v = VString s) ∧
  (λ record, dom (values record)) <$> records (queryFiles this files) =
  (λ record, dom (values record)) <$>
    parseRecords files (metadataCache (app this)).
Proof.
  unfold queryFiles; simpl. split; [|apply fallbacks_dom].
  intros field record v Hfield Htype Hrecord.
  revert v. change (plainAt (name field) record).
  revert record Hrecord. apply Forall_forall, fallbacks_plain.
  apply list_elem_of_fmap_2, list_elem_of_filter. done.
Qed.

Lemma queryFiles_ids this files :
  id <$> records (queryFiles this files) =
  TFile.path <$>
    filter (λ file, is_Some (getFileCache (metadataCache (app this)) file)) files.
Proof.
  unfold queryFiles; simpl. by rewrite fallbacks_ids, parseRecords_ids.
Qed.

(** C10, as the code has it. [queryAll] is [queryFiles] over the Markdown
    files whose path the project includes, and [queryOne] is [queryFiles]
    over the one file; the frame of [queryAll] holds one record, in order,
    for each Markdown file that the project includes and the metadata cache
    knows, and no other record. *)
Theorem queryAll_markdown_only this :
  queryAll this =
    queryFiles this
      (filter (λ file, includes this (TFile.path file) = true)
         (getMarkdownFiles (vault (app this)))) ∧
  (∀ file, queryOne this file = queryFiles this [file]) ∧
  id <$> records (queryAll this) =
    TFile.path <$>
      filter (λ file, includes this (TFile.path file) = true ∧
                      is_Some (getFileCache (metadataCache (app this)) file))
        (getMarkdownFiles (vault (app this))) ∧
  (∀ path,
     (∃ record, record ∈ records (queryAll this) ∧ id record = path) ↔
     (∃ file, file ∈ getMarkdownFiles (vault (app this)) ∧
              TFile.path file = path ∧
              includes this path = true ∧
              is_Some (getFileCache (metadataCache (app this)) file))).
Proof.
  assert (id <$> records (queryAll this) =
    TFile.path <$>
      filter (λ file, includes this (TFile.path file) = true ∧
                      is_Some (getFileCache (metadataCache (app this)) file))
        (getMarkdownFiles (vault (app this)))) as Hids.
  { unfold queryAll. rewrite queryFiles_ids, list_filter_filter.
    f_equal. apply list_filter_iff. intros file. tauto. }
  repeat split; try done.
  - intros (record & Hin & <-).
    apply (list_elem_of_fmap_2 id) in Hin. rewrite Hids in Hin.
    apply list_elem_of_fmap in Hin as (file & Hpath & Hfile).
    apply list_elem_of_filter in Hfile as [[Hinc Hcache] Hfile].
    exists file. by rewrite Hpath.
  - intros (file & Hfile & <- & Hinc & Hcache).
    assert (TFile.path file ∈ id <$> records (queryAll this)) as Hin.
    { rewrite Hids. apply list_elem_of_fmap_2, list_elem_of_filter. done. }
    apply list_elem_of_fmap in Hin as (record & Hid & Hrecord). eauto.
Qed.

End datasource.

(** * The properties on the sample vaults *)

Lemma detectSchema_identifier_witness :
  sampleRecords ≠ [] ∧
  Forall (λ record, is_Some (values record !! "path")) sampleRecords ∧
  (∃ field,
     filter (λ f, identifier f = true)
       (@detectSchema plainHelpers sampleRecords) = [field] ∧
     name field = "path").
Proof.
  assert (sampleRecords ≠ []) as Hne by (vm_compute; discriminate).
  assert (Forall (λ record, is_Some (values record !! "path")) sampleRecords)
    as Hall by (repeat constructor; vm_compute; eauto).
  split; [exact Hne|]. split; [exact Hall|].
  exact (proj1 (@detectSchema_identifier plainHelpers sampleRecords Hne Hall)).
Defined.

Lemma parseRecords_per_cached_file_witness :
  getFileCache noFrontMatter noteA = Some {| frontmatter := None |} ∧
  getFileCache noMetadata noteB = None ∧
  (∃ record,
     @parseRecords plainHelpers [noteA] noFrontMatter = [record] ∧
     id record = "Projects/a.md" ∧
     dom (values record) = {["path"; "name"]}) ∧
  @parseRecords plainHelpers [noteB] noMetadata = [].
Proof.
  split; [reflexivity|]. split; [reflexivity|]. split.
  - apply (proj1 (proj2
      (@parseRecords_per_cached_file plainHelpers [noteA] noFrontMatter))
      noteA {| frontmatter := None |}); reflexivity.
  - apply (proj2 (proj2
      (@parseRecords_per_cached_file plainHelpers [noteB] noMetadata))
      noteB); reflexivity.
Defined.

(** A file the metadata cache does not know contributes no record. *)
Lemma parseRecords_unknown_file_counterexample :
  getFileCache noMetadata noteA = None ∧
  ¬ ∃ record, record ∈ @parseRecords plainHelpers [noteA] noMetadata.
Proof.
  split; [reflexivity|]. intros [record Hin]. vm_compute in Hin.
  by apply elem_of_nil in Hin.
Qed.



Lemma extractRecord_drops_empty_witness :
  default ∅ (frontmatter noteAEntry) !! "owner" = Some VNull ∧
  notEmpty VNull = false ∧
  values (@extractRecord plainHelpers noteA noteAEntry) !! "owner" = None ∧
  values (@extractRecord plainHelpers noteA noteAEntry) !! "position" = None.
Proof.
  split; [reflexivity|]. split; [reflexivity|]. split.
  - apply (proj2 (@extractRecord_drops_empty plainHelpers noteA noteAEntry)
             "owner" VNull); (reflexivity || discriminate).
  - apply (proj1 (@extractRecord_drops_empty plainHelpers noteA noteAEntry)).
Defined.

(** A front matter key named [path] with an empty value: the record still
    has the key, holding the path of the file. *)
Lemma extractRecord_empty_path_counterexample :
  default ∅ (frontmatter shadowingEntry) !! "path" = Some VNull ∧
  notEmpty VNull = false ∧
  values (@extractRecord plainHelpers noteA shadowingEntry) !! "path" =
    Some (VString "Projects/a.md").
Proof. repeat split; reflexivity. Qed.

Lemma queryFiles_string_fields_witness :
  let frame :=
    @queryFiles plainHelpers (withProject sampleHost "Projects" false)
      [noteA; noteB] in
  let field :=
    {| name := "status"; type := DataFieldType.String; repeated := false;
       identifier := false; derived := false; typeConfig := None |} in
  ∃ record v,
    field ∈ fields frame ∧ type field = DataFieldType.String ∧
    record ∈ records frame ∧ id record = "Projects/b.md" ∧
    values record !! name field = Some v ∧ ∃ s, v = VString s.
Proof.
  intros frame field.
  destruct (records frame !! 1) as [record|] eqn:Hrecord;
    [|vm_compute in Hrecord; discriminate].
  destruct (values record !! "status") as [v|] eqn:Hv;
    [|apply (inj Some) in Hrecord; subst record; vm_compute in Hv; discriminate].
  assert (field ∈ fields frame) as Hfield by (vm_compute; pick_element).
  assert (record ∈ records frame) as Hin
    by (eapply list_elem_of_lookup_2; exact Hrecord).
  exists record, v. split; [exact Hfield|]. split; [reflexivity|].
  split; [exact Hin|]. split.
  - vm_compute in Hrecord. by apply (inj Some) in Hrecord as <-.
  - split; [exact Hv|].
    exact (proj1 (@queryFiles_string_fields plainHelpers _ _)
             field record v Hfield eq_refl Hin Hv).
Defined.

Lemma detectSchema_order_independent_witness :
  sampleRecords ≡ₚ sampleRecordsSwapped ∧
  @detectSchema plainHelpers sampleRecords
    ≡ₚ @detectSchema plainHelpers sampleRecordsSwapped ∧
  (∃ field,
     field ∈ @detectSchema plainHelpers sampleRecords ∧
     field ∈ @detectSchema plainHelpers sampleRecordsSwapped ∧
     name field = "status" ∧ type field = DataFieldType.String).
Proof.
  assert (sampleRecords ≡ₚ sampleRecordsSwapped) as Hp
    by (vm_compute; apply perm_swap).
  split; [exact Hp|].
  pose proof (@detectSchema_order_independent plainHelpers _ _ Hp) as [Hs Htie].
  split; [exact Hs|].
  apply (Htie "status" DataFieldType.String DataFieldType.Boolean).
  - discriminate.
  - discriminate.
  - discriminate.
  - vm_compute. lia.
  - reflexivity.
  - intros [] ? ? ?; (reflexivity || done).
Defined.

Lemma queryAll_markdown_only_witness :
  ∃ record,
    record ∈ records
      (@queryAll plainHelpers (withProject sampleHost "Projects" false)) ∧
    id record = "Projects/b.md".
Proof.
  apply (proj2 (proj2 (proj2 (proj2
    (@queryAll_markdown_only plainHelpers
       (withProject sampleHost "Projects" false)))) "Projects/b.md")).
  exists noteB. split; [vm_compute; pick_element|].
  split; [reflexivity|]. split; [reflexivity|]. vm_compute. eauto.
Defined.

(** A Markdown note under the project root that the metadata cache does not
    know yet has no record in the frame of [queryAll]. *)
Lemma queryAll_unindexed_counterexample :
  let this := withProject unindexedHost "Projects" false in
  ¬ ((∃ record, record ∈ records (@queryAll plainHelpers this) ∧
                id record = TFile.path noteA) ↔
     (noteA ∈ getMarkdownFiles (vault (app this)) ∧
      includes this (TFile.path noteA) = true)).
Proof.
  intros this [_ Hback].
  destruct Hback as (record & Hin & _).
  - split; [apply list_elem_of_here|reflexivity].
  - vm_compute in Hin. by apply elem_of_nil in Hin.
Qed.

(** * More on the source selector *)

Section selector.

Implicit Types (s root dir name path : string) (host : App).

Lemma split_nonempty sep s : split sep s ≠ [].
Proof.
  destruct s as [|c rest]; simpl; [done|].
  destruct (Ascii.eqb c sep); [done|]. by destruct (split sep rest).
Qed.

(** Splitting at a separator splits the two sides. *)
Lemma split_app sep s1 s2 :
  split sep (s1 +:+ String sep s2) = split sep s1 ++ split sep s2.
Proof.
  induction s1 as [|c s1 IH]; simpl.
  - by rewrite Ascii.eqb_refl.
  - rewrite IH. destruct (Ascii.eqb c sep); [done|].
    pose proof (split_nonempty sep s1). by destruct (split sep s1).
Qed.

(** Joining the elements of a split gives the string back. *)
Lemma join_split s : join "/" (split slash s) = s.
Proof.
  unfold join. induction s as [|c s IH]; simpl; [done|].
  pose proof (split_nonempty slash s) as Hne.
  destruct (Ascii.eqb_spec c slash) as [->|Hc].
  - destruct (split slash s) as [|el els]; [done|]. simpl in *. by rewrite IH.
  - destruct (split slash s) as [|el els]; [done|].
    destruct els; simpl in *; by rewrite <- IH.
Qed.

Lemma append_assoc (s1 s2 s3 : string) : (s1 +:+ s2) +:+ s3 = s1 +:+ s2 +:+ s3.
Proof.
  induction s1 as [|c s1 IH]; [done|].
  change (String c ((s1 +:+ s2) +:+ s3) = String c (s1 +:+ s2 +:+ s3)).
  by rewrite IH.
Qed.

Lemma startsWith_app s root : startsWith (root +:+ s) root = true.
Proof.
  unfold startsWith. induction root as [|c root IH]; simpl.
  - by destruct s.
  - destruct (Ascii.ascii_dec c c); [done|congruence].
Qed.

Lemma startsWith_inv s root :
  startsWith s root = true → ∃ rest, s = root +:+ rest.
Proof.
  unfold startsWith. revert s. induction root as [|c root IH]; intros s Hs.
  - by exists s.
  - destruct s as [|c' s]; simpl in Hs; [done|].
    destruct (Ascii.ascii_dec c c') as [->|]; [|done].
    destruct (IH s Hs) as [rest ->]. by exists rest.
Qed.

Lemma filter_truthy_all (els : list string) :
  Forall (λ el, truthy el = true) els →
  filter (λ el, truthy el = true) els = els.
Proof.
  induction 1 as [|el els Hel _ IH]; [done|].
  by rewrite filter_cons_True, IH.
Qed.

(** A root whose elements are all non-empty does not start with a slash. *)
Lemma no_leading_slash root :
  Forall (λ el, truthy el = true) (split slash root) →
  startsWith root "/" = false.
Proof.
  destruct root as [|c root]; [by inversion 1|].
  unfold startsWith. cbn [String.prefix split].
  destruct (Ascii.eqb_spec c slash) as [->|Hc].
  - by inversion 1.
  - intros _. destruct (Ascii.ascii_dec _ c) as [<-|]; done.
Qed.

(** The directory compared by the selector is the path without its last
    element. *)
Lemma directory_of dir name :
  split slash name = [name] →
  join "/" (dropLast (split slash (dir +:+ "/" +:+ name))) = dir.
Proof.
  intros Hname. change ("/" +:+ name) with (String slash name).
  rewrite split_app, Hname. unfold dropLast. rewrite removelast_last.
  apply join_split.
Qed.

(** X1. A slash in front of the root makes no difference. *)
Theorem includes_leading_slash host root recursive path :
  startsWith root "/" = false →
  includes (withProject host ("/" +:+ root) recursive) path =
  includes (withProject host root recursive) path.
Proof.
  intros Hroot. unfold includes; simpl.
  change (startsWith (String "/" root) "/") with (startsWith ("/" +:+ root) "/").
  by rewrite startsWith_app, Hroot.
Qed.

(** X2. Without recursion, and for a root without empty elements, a file is
    included exactly when its directory is the root. *)
Theorem includes_flat_iff host root dir name :
  Forall (λ el, truthy el = true) (split slash root) →
  split slash name = [name] →
  includes (withProject host root false) (dir +:+ "/" +:+ name) = true ↔
  dir = root.
Proof.
  intros Hroot Hname. unfold includes; simpl.
  rewrite (no_leading_slash root Hroot), (directory_of dir name Hname).
  rewrite (filter_truthy_all _ Hroot), join_split. split.
  - destruct (startsWith _ root); simpl; [|done].
    by intros ?%bool_decide_eq_true.
  - intros ->. rewrite startsWith_app; simpl. by apply bool_decide_eq_true.
Qed.

(** X3. A project on the vault itself (root "" or "/"), without recursion,
    includes the files at the top of the vault and none inside a folder. *)
Theorem includes_vault_root host root dir name :
  root = "" ∨ root = "/" →
  split slash name = [name] →
  includes (withProject host root false) name = true ∧
  (includes (withProject host root false) (dir +:+ "/" +:+ name) = true ↔
   dir = "").
Proof.
  intros Hroot Hname.
  assert (∀ path,
    includes (withProject host root false) path =
    bool_decide (join "/" (dropLast (split slash path)) = "")) as Hinc.
  { intros path. unfold includes; simpl.
    destruct Hroot as [-> | ->]; simpl; by destruct path. }
  rewrite !Hinc, Hname, (directory_of dir name Hname). split.
  - done.
  - apply bool_decide_eq_true.
Qed.

(** X4. With recursion, a root that ends in a slash matches whole path elements
    only: the included paths are those that continue the root after the
    slash. *)
Theorem includes_trailing_slash host root path :
  startsWith (root +:+ "/") "/" = false →
  includes (withProject host (root +:+ "/") true) path = true ↔
  ∃ rest, path = root +:+ "/" +:+ rest.
Proof.
  intros Hroot. unfold includes; simpl. rewrite Hroot. split.
  - destruct (startsWith path _) eqn:Hp; [|done]. intros _.
    destruct (startsWith_inv _ _ Hp) as [rest Hrest]. exists rest.
    rewrite Hrest. apply append_assoc.
  - intros [rest ->]. by rewrite <- append_assoc, startsWith_app.
Qed.

End selector.

(** * More on records and frames *)

Section frames.
Context `{Helpers}.

Implicit Types (file : TFile.t) (cache : CachedMetadata).
Implicit Types (files : list TFile.t) (mc : MetadataCache).
Implicit Types (this : FrontMatterDataSource).
Implicit Types (records : list DataRecord) (record : DataRecord).

(** X5. The entry [position] of the front matter never shows in the record: a
    front matter with it and the same front matter without it give the same
    record. *)
Theorem extractRecord_ignores_position file (fm : gmap string Value) v :
  extractRecord file {| frontmatter := Some (<["position" := v]> fm) |} =
  extractRecord file {| frontmatter := Some fm |}.
Proof. unfold extractRecord; simpl. by rewrite delete_insert_eq. Qed.

(** X6. Besides [path] and [name], a record holds exactly the non-empty entries
    of the front matter other than [position], each one standardized. *)
Theorem extractRecord_user_values file cache key w :
  key ≠ "path" → key ≠ "name" →
  values (extractRecord file cache) !! key = Some w ↔
  key ≠ "position" ∧
  ∃ v, default ∅ (frontmatter cache) !! key = Some v ∧
       notEmpty v = true ∧ w = standardizeValue v.
Proof.
  intros Hp Hn. rewrite extractRecord_other by done. case_decide as Hpos.
  - split; [done|]. by intros [? _].
  - destruct (default ∅ (frontmatter cache) !! key) as [v|]; simpl.
    + destruct (notEmpty v) eqn:Hv; simpl.
      * split; [intros [= <-]; eauto|]. by intros (_ & v' & [= <-] & _ & ->).
      * split; [done|]. intros (_ & v' & [= <-] & Hv' & _). congruence.
    + split; [done|]. by intros (_ & v' & ? & _).
Qed.

(** X7. The records of a list of files are the records of its parts, one after
    the other. *)
Theorem parseRecords_app files1 files2 mc :
  parseRecords (files1 ++ files2) mc =
  parseRecords files1 mc ++ parseRecords files2 mc.
Proof. by rewrite !parseRecords_omap, omap_app. Qed.

Lemma parseRecords_none files mc :
  (∀ file, file ∈ files → getFileCache mc file = None) →
  parseRecords files mc = [].
Proof.
  intros Hnone. rewrite parseRecords_omap.
  induction files as [|file files IH]; [done|]. simpl.
  rewrite (Hnone file) by left. simpl. apply IH.
  intros file' Hin. apply Hnone. by right.
Qed.

Lemma detectSchema_nil : detectSchema [] = [].
Proof.
  rewrite detectSchema_markField. unfold detectFields; simpl.
  by rewrite map_imap_empty, map_to_list_empty.
Qed.

(** X8. When the metadata cache knows none of the files, the frame is empty: no
    field and no record. *)
Theorem queryFiles_nothing_cached this files :
  (∀ file, file ∈ files →
           getFileCache (metadataCache (app this)) file = None) →
  queryFiles this files = {| fields := []; records := [] |}.
Proof.
  intros Hnone. unfold queryFiles.
  rewrite (parseRecords_none _ _ Hnone), detectSchema_nil. done.
Qed.

(** X9. Files of different paths give records of different ids. *)
Theorem queryFiles_ids_NoDup this files :
  NoDup (TFile.path <$> files) →
  NoDup (id <$> records (queryFiles this files)).
Proof.
  intros Hnd. rewrite queryFiles_ids.
  eapply sublist_NoDup; [exact Hnd|].
  apply fmap_sublist, sublist_filter.
Qed.

Lemma elem_of_fallbacks records names record :
  record ∈ foldl stringFallback records names →
  ∃ record0, record0 ∈ records ∧ id record = id record0 ∧
             dom (values record) = dom (values record0).
Proof.
  revert records. induction names as [|field names IH]; intros records Hin.
  - by exists record.
  - simpl in Hin. apply IH in Hin as (record1 & Hin & Hid & Hdom).
    unfold stringFallback in Hin.
    apply list_elem_of_fmap in Hin as (record0 & -> & Hin).
    exists record0. split; [done|].
    by rewrite Hid, Hdom, fallbackRecord_id, fallbackRecord_dom.
Qed.

(** X10. Every record of a frame belongs to one of the files, a file the cache
    knows; its id is the path of the file and it has a [path] and a [name]
    value. *)
Theorem queryFiles_records this files record :
  record ∈ records (queryFiles this files) →
  (∃ file, file ∈ files ∧
           is_Some (getFileCache (metadataCache (app this)) file) ∧
           id record = TFile.path file) ∧
  is_Some (values record !! "path") ∧ is_Some (values record !! "name").
Proof.
  unfold queryFiles; simpl.
  intros (record0 & Hin & Hid & Hdom)%elem_of_fallbacks.
  apply elem_of_parseRecords in Hin as (file & cache & Hfile & Hcache & ->).
  split.
  - exists file. rewrite Hcache. eauto.
  - rewrite <- !elem_of_dom, Hdom, !elem_of_dom.
    rewrite extractRecord_path, extractRecord_name. eauto.
Qed.

(** X11. The two passes of [detectSchema] only mark: they keep the number and
    order of the detected fields with their names, types, repeated flags and
    type configurations, and a field named neither "path" nor "name" comes
    out as it went in. *)
Theorem detectSchema_only_marks records :
  name <$> detectSchema records = name <$> detectFields records ∧
  type <$> detectSchema records = type <$> detectFields records ∧
  repeated <$> detectSchema records = repeated <$> detectFields records ∧
  typeConfig <$> detectSchema records = typeConfig <$> detectFields records ∧
  filter (λ field, name field ≠ "path" ∧ name field ≠ "name")
    (detectSchema records) =
  filter (λ field, name field ≠ "path" ∧ name field ≠ "name")
    (detectFields records).
Proof.
  rewrite detectSchema_markField.
  assert (∀ field,
    name (markField field) = name field ∧ type (markField field) = type field ∧
    repeated (markField field) = repeated field ∧
    typeConfig (markField field) = typeConfig field ∧
    (name field ≠ "path" ∧ name field ≠ "name" → markField field = field))
    as Hmark.
  { intros field. unfold markField. repeat case_decide; simpl; tauto. }
  repeat split; try (rewrite <- list_fmap_compose; apply list_fmap_ext;
                     intros _ field _; apply Hmark).
  induction (detectFields records) as [|field fs IH]; [done|].
  rewrite fmap_cons, !filter_cons.
  destruct (Hmark field) as (Hname & _ & _ & _ & Hsame).
  rewrite Hname. case_decide as Hd; [|exact IH].
  by rewrite IH, (Hsame Hd).
Qed.

(** X12. As soon as the cache knows one of the files, the fields of the frame
    hold exactly one identifier, the derived field "path". *)
Theorem queryFiles_identifier this files file :
  file ∈ files →
  is_Some (getFileCache (metadataCache (app this)) file) →
  ∃ field,
    filter (λ f, identifier f = true) (fields (queryFiles this files)) = [field] ∧
    name field = "path" ∧ derived field = true.
Proof.
  intros Hfile [cache Hcache]. unfold queryFiles; simpl.
  set (records := parseRecords files (metadataCache (app this))).
  assert (observations "path" records ≠ []) as Hobs.
  { unfold observations. intros Hnil.
    assert (classify (standardizeValue (VString (TFile.path file)))
            ∈ omap (λ record, classify <$> values record !! "path") records)
      as Hin; [|rewrite Hnil in Hin; by apply elem_of_nil in Hin].
    apply list_elem_of_omap. exists (extractRecord file cache). split.
    - apply elem_of_parseRecords. eauto.
    - by rewrite extractRecord_path. }
  pose proof (detected_lookup records "path") as Hpath.
  destruct (observations "path" records) as [|o obs]; [done|].
  exists (markField (fieldOf "path" (o :: obs))).
  rewrite detectSchema_markField. split; [|split].
  - eapply filter_unique.
    + unfold detectFields.
      rewrite <- (map_to_list_delete _ "path" _ Hpath).
      rewrite !fmap_cons. reflexivity.
    + by apply markField_identifier.
    + intros y ([key f] & -> & Hin)%list_elem_of_fmap.
      apply list_elem_of_fmap in Hin as ([key' f'] & [= <-] & Hin).
      apply elem_of_map_to_list, lookup_delete_Some in Hin as [Hkey Hin].
      rewrite detected_lookup in Hin.
      destruct (observations key' records); [done|].
      apply (inj Some) in Hin as <-. simpl.
      intros Hid%markField_identifier. congruence.
  - by rewrite markField_name.
  - apply markField_derived. by left.
Qed.

End frames.

(** * The board view *)

Section board.

Implicit Types (s a names : list string) (x y column field : string).
Implicit Types (config : option BoardConfig.t).

(** ** Sets *)

Lemma elem_of_setAdd s x y : y ∈ setAdd s x ↔ y ∈ s ∨ y = x.
Proof.
  unfold setAdd. case_decide as Hx.
  - split; [by left|]. by intros [?| ->].
  - rewrite elem_of_app, list_elem_of_singleton. done.
Qed.

Lemma NoDup_setAdd s x : NoDup s → NoDup (setAdd s x).
Proof.
  intros Hs. unfold setAdd. case_decide as Hx; [done|].
  apply NoDup_app. split; [done|]. split; [|apply NoDup_singleton].
  intros y Hy ->%list_elem_of_singleton. done.
Qed.

Lemma elem_of_setAdds s a y : y ∈ foldl setAdd s a ↔ y ∈ s ∨ y ∈ a.
Proof.
  revert s. induction a as [|x a IH]; intros s; simpl.
  - split; [by left|]. intros [?|Hy]; [done|]. by apply elem_of_nil in Hy.
  - rewrite IH, elem_of_setAdd, elem_of_cons. tauto.
Qed.

Lemma NoDup_setAdds s a : NoDup s → NoDup (foldl setAdd s a).
Proof.
  revert s. induction a as [|x a IH]; intros s Hs; simpl; [done|].
  by apply IH, NoDup_setAdd.
Qed.

Lemma setAdds_fresh s a : NoDup (s ++ a) → foldl setAdd s a = s ++ a.
Proof.
  revert s. induction a as [|x a IH]; intros s Hnd; simpl.
  - by rewrite app_nil_r.
  - assert (x ∉ s) as Hx.
    { apply NoDup_app in Hnd as (_ & Hdisj & _). intros Hin.
      apply (Hdisj x Hin). left. }
    unfold setAdd at 2. rewrite decide_False by done.
    rewrite IH; rewrite <- app_assoc; done.
Qed.

Lemma elem_of_newSet a y : y ∈ newSet a ↔ y ∈ a.
Proof.
  unfold newSet. rewrite elem_of_setAdds. split; [|by right].
  intros [Hy|?]; [|done]. by apply elem_of_nil in Hy.
Qed.

Lemma NoDup_newSet a : NoDup (newSet a).
Proof. apply NoDup_setAdds, NoDup_nil_2. Qed.

Lemma newSet_NoDup a : NoDup a → newSet a = a.
Proof. intros Ha. unfold newSet. by rewrite setAdds_fresh. Qed.

Lemma elem_of_setDelete s x y : y ∈ setDelete s x ↔ y ∈ s ∧ y ≠ x.
Proof. unfold setDelete. rewrite list_elem_of_filter. tauto. Qed.

(** ** Sorting by weight *)

Lemma compareColumns_le config x y :
  (compareColumns config x y <=? 0)%Z = true ↔
  (columnWeight config x ≤ columnWeight config y)%Z.
Proof.
  unfold compareColumns. rewrite Z.gtb_ltb.
  destruct (Z.ltb_spec (columnWeight config x) (columnWeight config y));
    [|destruct (Z.ltb_spec (columnWeight config y) (columnWeight config x))];
    rewrite Z.leb_le; lia.
Qed.

Lemma insertSorted_Permutation {A} (compare : A → A → Z) (z : A) (l : list A) :
  insertSorted compare z l ≡ₚ z :: l.
Proof.
  induction l as [|w l IH]; simpl; [done|].
  destruct (compare z w <=? 0)%Z; [done|].
  by rewrite IH, Permutation_swap.
Qed.

Lemma sort_Permutation {A} (compare : A → A → Z) (l : list A) :
  sort compare l ≡ₚ l.
Proof.
  unfold sort. induction l as [|z l IH]; simpl; [done|].
  by rewrite insertSorted_Permutation, IH.
Qed.

Lemma insertSorted_weights config x s :
  StronglySorted (λ y z, (columnWeight config y ≤ columnWeight config z)%Z) s →
  StronglySorted (λ y z, (columnWeight config y ≤ columnWeight config z)%Z)
    (insertSorted (compareColumns config) x s).
Proof.
  induction 1 as [|y s Hs IH Hy]; simpl.
  - repeat constructor.
  - destruct (compareColumns config x y <=? 0)%Z eqn:Hxy.
    + apply compareColumns_le in Hxy.
      constructor; [by constructor|]. constructor; [done|].
      eapply Forall_impl; [exact Hy|]. simpl. intros z. lia.
    + assert (¬ (columnWeight config x ≤ columnWeight config y)%Z) as Hyx.
      { rewrite <- compareColumns_le. by rewrite Hxy. }
      constructor; [done|].
      rewrite insertSorted_Permutation. constructor; [lia|done].
Qed.

Lemma sort_weights config s :
  StronglySorted (λ y z, (columnWeight config y ≤ columnWeight config z)%Z)
    (sort (compareColumns config) s).
Proof.
  unfold sort. induction s as [|x s IH]; simpl; [constructor|].
  by apply insertSorted_weights.
Qed.

(** Sorting a list that is in order already changes nothing: elements of
    the same weight keep their places. *)
Lemma sort_sorted config s :
  StronglySorted (λ y z, (columnWeight config y ≤ columnWeight config z)%Z) s →
  sort (compareColumns config) s = s.
Proof.
  unfold sort. induction 1 as [|x s Hs IH Hx]; simpl; [done|].
  rewrite IH. destruct Hx as [|y s Hxy _]; simpl; [done|].
  apply compareColumns_le in Hxy. by rewrite Hxy.
Qed.

(** ** Objects *)

Lemma fromEntries_lookup {V} (entries : list (string * V)) key v :
  NoDup entries.*1 → (key, v) ∈ entries → fromEntries entries !! key = Some v.
Proof.
  unfold fromEntries.
  induction entries as [|[key' v'] entries IH] using rev_ind;
    intros Hnd Hin; [by apply elem_of_nil in Hin|].
  rewrite foldl_app; simpl. rewrite fmap_app in Hnd.
  apply NoDup_app in Hnd as (Hnd & Hdisj & _).
  apply elem_of_app in Hin as [Hin|Hin%list_elem_of_singleton].
  - rewrite lookup_insert_ne; [by apply IH|].
    intros <-. apply (Hdisj key'); [|left].
    apply list_elem_of_fmap. by exists (key', v).
  - simplify_eq. by rewrite lookup_insert_eq.
Qed.

Lemma fromEntries_lookup_None {V} (entries : list (string * V)) key :
  key ∉ entries.*1 → fromEntries entries !! key = None.
Proof.
  unfold fromEntries.
  induction entries as [|[key' v'] entries IH] using rev_ind; intros Hin;
    [done|].
  rewrite foldl_app; simpl. rewrite fmap_app, elem_of_app in Hin.
  rewrite lookup_insert_ne; [apply IH; tauto|].
  intros <-. apply Hin. right. simpl. left.
Qed.

Lemma entryOf_lookup {V} (object : list (string * V)) key v :
  NoDup object.*1 → (key, v) ∈ object →
  entryOf object key = Some (OwnValue v).
Proof.
  unfold entryOf. induction object as [|[key' v'] object IH]; intros Hnd Hin;
    [by apply elem_of_nil in Hin|].
  simpl in *. apply NoDup_cons in Hnd as [Hkey' Hnd].
  apply elem_of_cons in Hin as [[= <- <-]|Hin].
  - by rewrite bool_decide_eq_true_2.
  - rewrite bool_decide_eq_false_2; [by apply IH|].
    intros ->. apply Hkey', list_elem_of_fmap. by exists (key, v).
Qed.

(** A key that is no own entry is read from the prototype. *)
Lemma entryOf_not_own {V} (object : list (string * V)) key :
  key ∉ object.*1 →
  entryOf object key =
  if decide (key ∈ objectPrototype) then Some (PrototypeMember key) else None.
Proof.
  unfold entryOf. induction object as [|[key' v'] object IH]; intros Hin;
    [done|].
  simpl in *. rewrite not_elem_of_cons in Hin. destruct Hin as [Hne Hin].
  rewrite bool_decide_eq_false_2 by done. by apply IH.
Qed.

(** ** Columns *)

Implicit Types (groupBy : option DataField).
Implicit Types (grouped records : list (string * list DataRecord)).

Lemma getColumns_ids config groupBy grouped records :
  Column.id <$> getColumns config groupBy grouped records =
  sort (compareColumns config)
    (if decide (type <$> groupBy = Some DataFieldType.String)
     then foldl setAdd (newSet records.*1) (default [] (groupBy ≫= typeConfig))
     else newSet records.*1).
Proof.
  unfold getColumns. cbv zeta. rewrite <- list_fmap_compose.
  case_decide; (etransitivity; [|apply list_fmap_id]);
    by apply list_fmap_ext.
Qed.

(** X13. The columns are the keys of the groups and, for a grouping field of
    the string type, its options; none of them comes twice. *)
Theorem getColumns_names config groupBy grouped records :
  NoDup (Column.id <$> getColumns config groupBy grouped records) ∧
  (∀ column,
     column ∈ Column.id <$> getColumns config groupBy grouped records ↔
     column ∈ records.*1 ∨
     (type <$> groupBy = Some DataFieldType.String ∧
      column ∈ default [] (groupBy ≫= typeConfig))).
Proof.
  rewrite getColumns_ids. split.
  - rewrite sort_Permutation. case_decide.
    + apply NoDup_setAdds, NoDup_newSet.
    + apply NoDup_newSet.
  - intros column. rewrite sort_Permutation. case_decide as Ht.
    + rewrite elem_of_setAdds, elem_of_newSet. tauto.
    + rewrite elem_of_newSet. tauto.
Qed.

(** X14. The columns come in the order of their weights. *)
Theorem getColumns_by_weight config groupBy grouped records :
  StronglySorted
    (λ x y, (columnWeight config x ≤ columnWeight config y)%Z)
    (Column.id <$> getColumns config groupBy grouped records).
Proof. rewrite getColumns_ids. apply sort_weights. Qed.

(** X15. Called on the grouped records of the view, [getColumns] loses no group:
    every group is a column with the records of the group.  A column that
    is no group, one that comes from an option only, has no record, unless
    it is named like a member of [Object.prototype]: the read of the
    grouped records then finds that member, and the column carries it in
    place of a list of records. *)
Theorem getColumns_groups config groupBy grouped :
  NoDup grouped.*1 →
  (∀ key rs,
     (key, rs) ∈ grouped →
     {| Column.id := key; Column.records := OwnValue rs |}
       ∈ getColumns config groupBy grouped grouped) ∧
  (∀ col : Column.t,
     col ∈ getColumns config groupBy grouped grouped →
     Column.id col ∉ grouped.*1 →
     Column.records col =
       if decide (Column.id col ∈ objectPrototype)
       then PrototypeMember (Column.id col) else OwnValue []).
Proof.
  intros Hnd. split.
  - intros key rs Hin.
    assert (key ∈ Column.id <$> getColumns config groupBy grouped grouped)
      as Hkey.
    { apply getColumns_names. left. apply list_elem_of_fmap. by exists (key, rs). }
    apply list_elem_of_fmap in Hkey as (col & Hid & Hcolumn).
    unfold getColumns in Hcolumn.
    apply list_elem_of_fmap in Hcolumn as (key' & -> & Hkey').
    simpl in Hid. subst key'.
    apply list_elem_of_fmap. exists key. split; [|done].
    by rewrite (entryOf_lookup grouped key rs).
  - intros col Hcolumn Hid. unfold getColumns in Hcolumn.
    apply list_elem_of_fmap in Hcolumn as (key & -> & _). simpl in *.
    rewrite entryOf_not_own by done. by case_decide.
Qed.

Lemma columnWeight_unset config x :
  config ≫= BoardConfig.columns = None → columnWeight config x = 0%Z.
Proof. intros Hnone. unfold columnWeight. by rewrite Hnone. Qed.

(** X16. Without weights in the configuration the columns keep the order in
    which they were met: the groups first, then the options that are no
    group. *)
Theorem getColumns_unweighted config groupBy grouped records :
  config ≫= BoardConfig.columns = None →
  Column.id <$> getColumns config groupBy grouped records =
  foldl setAdd (newSet records.*1)
    (if decide (type <$> groupBy = Some DataFieldType.String)
     then default [] (groupBy ≫= typeConfig) else []).
Proof.
  intros Hnone. rewrite getColumns_ids.
  assert (∀ s, sort (compareColumns config) s = s) as Hsort.
  { intros s. apply sort_sorted. induction s as [|x s IH]; constructor; [done|].
    apply Forall_forall. intros y _. by rewrite !columnWeight_unset. }
  rewrite Hsort. by case_decide.
Qed.

(** ** Sorting the columns by hand *)

Lemma weights_names names :
  (imap (λ i name, (name, {| weight := Some (Z.of_nat i) |})) names).*1 = names.
Proof.
  apply list_eq. intros i. rewrite list_lookup_fmap, list_lookup_imap.
  by destruct (names !! i).
Qed.

Lemma onSortColumns_weight config names i x :
  NoDup names → names !! i = Some x →
  columnWeight (Some (onSortColumns config names)) x = Z.of_nat i.
Proof.
  intros Hnd Hi. unfold columnWeight, onSortColumns; simpl.
  rewrite (fromEntries_lookup _ x {| weight := Some (Z.of_nat i) |}); [done| |].
  - by rewrite weights_names.
  - apply list_elem_of_lookup. exists i. by rewrite list_lookup_imap, Hi.
Qed.

(** X17. After [onSortColumns] the weight of a name is its position in the list
    of names, and any other column has weight 0. *)
Theorem onSortColumns_weights config names :
  NoDup names →
  (∀ i x, names !! i = Some x →
          columnWeight (Some (onSortColumns config names)) x = Z.of_nat i) ∧
  (∀ x, x ∉ names → columnWeight (Some (onSortColumns config names)) x = 0%Z).
Proof.
  intros Hnd. split.
  - intros i x Hi. by apply onSortColumns_weight.
  - intros x Hx. unfold columnWeight, onSortColumns; simpl.
    rewrite fromEntries_lookup_None; [done|]. by rewrite weights_names.
Qed.

Lemma StronglySorted_lookup {A} (R : relation A) (l : list A) :
  (∀ i j (u v : A), l !! i = Some u → l !! j = Some v → i < j → R u v) →
  StronglySorted R l.
Proof.
  induction l as [|w l IH]; intros Hlt; constructor.
  - apply IH. intros i j u v Hi Hj Hij. apply (Hlt (S i) (S j)); [done..|lia].
  - apply Forall_forall. intros v [j Hj]%list_elem_of_lookup.
    apply (Hlt 0 (S j)); [done..|lia].
Qed.

(** X18. The order the columns were dragged into is the order [getColumns] shows
    them in afterwards. *)
Theorem getColumns_after_sort config groupBy grouped records names :
  NoDup names →
  names ≡ₚ Column.id <$> getColumns config groupBy grouped records →
  Column.id
    <$> getColumns (Some (onSortColumns config names)) groupBy grouped records =
  names.
Proof.
  intros Hnd Hnames. rewrite getColumns_ids in *.
  rewrite sort_Permutation in Hnames.
  eapply (StronglySorted_unique_strong
    (λ x y, (columnWeight (Some (onSortColumns config names)) x
             ≤ columnWeight (Some (onSortColumns config names)) y)%Z)).
  - intros x y Hx Hy Hxy Hyx.
    rewrite sort_Permutation, <- Hnames in Hx.
    apply list_elem_of_lookup in Hx as [i Hi].
    apply list_elem_of_lookup in Hy as [j Hj].
    rewrite (onSortColumns_weight _ _ i x), (onSortColumns_weight _ _ j y)
      in Hxy, Hyx by done.
    assert (i = j) by lia. congruence.
  - apply sort_weights.
  - apply StronglySorted_lookup. intros i j x y Hi Hj Hij.
    rewrite (onSortColumns_weight _ _ i x), (onSortColumns_weight _ _ j y)
      by done. lia.
  - by rewrite sort_Permutation.
Qed.

(** ** Included fields *)

(** X19. [handleIncludeFieldChange] changes the included fields and nothing else:
    afterwards the field is included exactly when it was enabled, every
    other field is included exactly when it was before, and no field is
    listed twice. *)
Theorem handleIncludeFieldChange_included config field enabled :
  (∃ included,
     BoardConfig.includeFields (handleIncludeFieldChange config field enabled)
       = Some included ∧
     NoDup included ∧
     ∀ x, x ∈ included ↔
          (x = field ∧ enabled = true) ∨
          (x ≠ field ∧ x ∈ default [] (config ≫= BoardConfig.includeFields))) ∧
  BoardConfig.groupByField (handleIncludeFieldChange config field enabled)
    = config ≫= BoardConfig.groupByField ∧
  BoardConfig.priorityField (handleIncludeFieldChange config field enabled)
    = config ≫= BoardConfig.priorityField ∧
  BoardConfig.columns (handleIncludeFieldChange config field enabled)
    = config ≫= BoardConfig.columns ∧
  BoardConfig.columnWidth (handleIncludeFieldChange config field enabled)
    = config ≫= BoardConfig.columnWidth.
Proof.
  split; [|by destruct config].
  unfold handleIncludeFieldChange; simpl. eexists. split; [done|].
  destruct enabled.
  - split; [apply NoDup_setAdd, NoDup_newSet|].
    intros x. rewrite elem_of_setAdd, elem_of_newSet.
    destruct (decide (x = field)); intuition congruence.
  - split; [apply NoDup_filter, NoDup_newSet|].
    intros x. rewrite elem_of_setDelete, elem_of_newSet. intuition congruence.
Qed.

(** X20. Changing a field to the state it is in already changes nothing. *)
Theorem handleIncludeFieldChange_idempotent config field enabled :
  handleIncludeFieldChange
    (Some (handleIncludeFieldChange config field enabled)) field enabled =
  handleIncludeFieldChange config field enabled.
Proof.
  unfold handleIncludeFieldChange; simpl. f_equal. f_equal.
  destruct enabled.
  - rewrite newSet_NoDup by apply NoDup_setAdd, NoDup_newSet.
    unfold setAdd at 1. rewrite decide_True; [done|].
    apply elem_of_setAdd. by right.
  - rewrite newSet_NoDup by apply NoDup_filter, NoDup_newSet.
    unfold setDelete. by apply list_filter_filter_l.
Qed.

(** X21. The board shows a field after the change exactly when the field was
    switched on, or is another field that was shown before. *)
Theorem boardFields_after_change config field enabled (fields : list DataField) :
  boardFields (Some (handleIncludeFieldChange config field enabled)) fields =
  filter (λ f, (name f = field ∧ enabled = true) ∨
               (name f ≠ field ∧ fieldIncluded config f = true)) fields.
Proof.
  unfold boardFields. apply list_filter_iff. intros f.
  unfold fieldIncluded. rewrite !bool_decide_eq_true. simpl.
  destruct enabled.
  - rewrite elem_of_setAdd, elem_of_newSet.
    destruct (decide (name f = field)); intuition congruence.
  - rewrite elem_of_setDelete, elem_of_newSet. intuition congruence.
Qed.

(** ** The grouping field *)

Lemma find_unique_name (fields : list DataField) (f : DataField) :
  NoDup (name <$> fields) → f ∈ fields →
  List.find (λ g : DataField, bool_decide (name f = name g)) fields = Some f.
Proof.
  induction fields as [|g fields IH]; intros Hnd Hin;
    [by apply elem_of_nil in Hin|].
  simpl in *. apply NoDup_cons in Hnd as [Hg Hnd].
  apply elem_of_cons in Hin as [->|Hin].
  - by rewrite bool_decide_eq_true_2.
  - rewrite bool_decide_eq_false_2; [by apply IH|].
    intros Heq. apply Hg. rewrite <- Heq. by apply list_elem_of_fmap_2.
Qed.

(** X22. When the fields have different names and the configuration names a
    string field as grouping field, every option of that field has a column
    on the board, with or without records. *)
Theorem getColumns_options config (fields : list DataField) grouped f option :
  NoDup (name <$> fields) → f ∈ fields →
  config ≫= BoardConfig.groupByField = Some (name f) →
  type f = DataFieldType.String →
  option ∈ default [] (typeConfig f) →
  option ∈ Column.id
    <$> getColumns config (groupByField config fields) grouped grouped.
Proof.
  intros Hnd Hin Hkey Htype Hoption. apply getColumns_names. right.
  unfold groupByField. rewrite Hkey, (find_unique_name fields f Hnd Hin).
  simpl. by rewrite Htype.
Qed.

End board.

(** * The further properties on the samples *)

Lemma includes_leading_slash_witness :
  startsWith "Projects" "/" = false ∧
  includes (withProject sampleHost "/Projects" false) "Projects/a.md" =
  includes (withProject sampleHost "Projects" false) "Projects/a.md".
Proof.
  split; [reflexivity|].
  apply (includes_leading_slash sampleHost "Projects" false "Projects/a.md").
  reflexivity.
Defined.

Lemma includes_flat_iff_witness :
  Forall (λ el, truthy el = true) (split slash "Projects/Sub") ∧
  split slash "b.md" = ["b.md"] ∧
  includes (withProject sampleHost "Projects/Sub" false) "Projects/Sub/b.md"
    = true.
Proof.
  assert (Forall (λ el, truthy el = true) (split slash "Projects/Sub")) as Hroot
    by (repeat constructor).
  split; [exact Hroot|]. split; [reflexivity|].
  apply (proj2 (includes_flat_iff sampleHost "Projects/Sub" "Projects/Sub"
                  "b.md" Hroot eq_refl)).
  reflexivity.
Defined.

Lemma includes_vault_root_witness :
  split slash "a.md" = ["a.md"] ∧
  includes (withProject sampleHost "/" false) "a.md" = true.
Proof.
  split; [reflexivity|].
  apply (proj1 (includes_vault_root sampleHost "/" "Projects" "a.md"
                  (or_intror eq_refl) eq_refl)).
Defined.

Lemma includes_trailing_slash_witness :
  startsWith "Note/" "/" = false ∧
  includes (withProject sampleHost "Note/" true) "Note/x.md" = true.
Proof.
  split; [reflexivity|].
  apply (proj2 (includes_trailing_slash sampleHost "Note" "Note/x.md" eq_refl)).
  by exists "x.md".
Defined.

Lemma extractRecord_user_values_witness :
  "status" ≠ "path" ∧ "status" ≠ "name" ∧
  values (@extractRecord plainHelpers noteA noteAEntry) !! "status"
    = Some (VString "todo").
Proof.
  assert ("status" ≠ "path") as Hp by discriminate.
  assert ("status" ≠ "name") as Hn by discriminate.
  split; [exact Hp|]. split; [exact Hn|].
  apply (proj2 (@extractRecord_user_values plainHelpers noteA noteAEntry
                  "status" (VString "todo") Hp Hn)).
  split; [discriminate|]. by exists (VString "todo").
Defined.

Lemma queryFiles_nothing_cached_witness :
  (∀ file, file ∈ [noteA] →
           getFileCache (metadataCache (app (withProject unindexedHost "Projects" false)))
             file = None) ∧
  @queryFiles plainHelpers (withProject unindexedHost "Projects" false) [noteA]
    = {| fields := []; records := [] |}.
Proof.
  assert (∀ file, file ∈ [noteA] →
    getFileCache (metadataCache (app (withProject unindexedHost "Projects" false)))
      file = None) as Hnone by reflexivity.
  split; [exact Hnone|].
  exact (@queryFiles_nothing_cached plainHelpers _ [noteA] Hnone).
Defined.

Lemma queryFiles_ids_NoDup_witness :
  NoDup (TFile.path <$> [noteA; noteB]) ∧
  NoDup (id <$> records
           (@queryFiles plainHelpers (withProject sampleHost "Projects" false)
              [noteA; noteB])).
Proof.
  assert (NoDup (TFile.path <$> [noteA; noteB])) as Hnd
    by by_evaluation.
  split; [exact Hnd|].
  exact (@queryFiles_ids_NoDup plainHelpers _ [noteA; noteB] Hnd).
Defined.

Lemma queryFiles_records_witness :
  ∃ record,
    record ∈ records
      (@queryFiles plainHelpers (withProject sampleHost "Projects" false)
         [noteA; noteB]) ∧
    id record = "Projects/b.md" ∧
    is_Some (values record !! "path") ∧ is_Some (values record !! "name").
Proof.
  destruct (records
      (@queryFiles plainHelpers (withProject sampleHost "Projects" false)
         [noteA; noteB]) !! 1) as [record|] eqn:Hrecord;
    [|vm_compute in Hrecord; discriminate].
  assert (record ∈ records
      (@queryFiles plainHelpers (withProject sampleHost "Projects" false)
         [noteA; noteB])) as Hin
    by (eapply list_elem_of_lookup_2; exact Hrecord).
  exists record. split; [exact Hin|]. split.
  - vm_compute in Hrecord. by apply (inj Some) in Hrecord as <-.
  - exact (proj2 (@queryFiles_records plainHelpers _ _ record Hin)).
Defined.

Lemma queryFiles_identifier_witness :
  noteB ∈ [noteA; noteB] ∧
  is_Some (getFileCache sampleCache noteB) ∧
  ∃ field,
    filter (λ f, identifier f = true)
      (fields (@queryFiles plainHelpers
                 (withProject sampleHost "Projects" false) [noteA; noteB]))
      = [field] ∧
    name field = "path" ∧ derived field = true.
Proof.
  assert (noteB ∈ [noteA; noteB]) as Hin by pick_element.
  assert (is_Some (getFileCache sampleCache noteB)) as Hcache
    by (vm_compute; eauto).
  split; [exact Hin|]. split; [exact Hcache|].
  exact (@queryFiles_identifier plainHelpers
           (withProject sampleHost "Projects" false) _ noteB Hin Hcache).
Defined.

Lemma getColumns_groups_witness :
  NoDup sampleGroups.*1 ∧
  {| Column.id := "done";
     Column.records := OwnValue [{| id := "Projects/b.md"; values := ∅ |}] |}
    ∈ getColumns (Some sampleBoard) (Some statusField) sampleGroups sampleGroups ∧
  ∃ col,
    col ∈ getColumns (Some sampleBoard) (Some kindField)
            sampleGroups sampleGroups ∧
    Column.id col = "constructor" ∧
    Column.records col = PrototypeMember "constructor".
Proof.
  assert (NoDup sampleGroups.*1) as Hnd
    by by_evaluation.
  split; [exact Hnd|]. split.
  - apply (proj1 (getColumns_groups (Some sampleBoard) (Some statusField)
                    sampleGroups Hnd)).
    unfold sampleGroups. pick_element.
  - destruct (getColumns (Some sampleBoard) (Some kindField)
                sampleGroups sampleGroups !! 2) as [col|] eqn:Hcol;
      [|vm_compute in Hcol; discriminate].
    assert (col ∈ getColumns (Some sampleBoard) (Some kindField)
                    sampleGroups sampleGroups) as Hin
      by (eapply list_elem_of_lookup_2; exact Hcol).
    assert (Column.id col = "constructor") as Hid
      by (vm_compute in Hcol; by apply (inj Some) in Hcol as <-).
    exists col. split; [exact Hin|]. split; [exact Hid|].
    rewrite (proj2 (getColumns_groups (Some sampleBoard) (Some kindField)
                      sampleGroups Hnd) col Hin);
      rewrite Hid; [reflexivity|by_evaluation].
Defined.

Lemma getColumns_unweighted_witness :
  Some sampleBoard ≫= BoardConfig.columns = None ∧
  Column.id
    <$> getColumns (Some sampleBoard) (Some statusField) sampleGroups sampleGroups
  = ["todo"; "done"; "doing"].
Proof.
  split; [reflexivity|].
  rewrite (getColumns_unweighted (Some sampleBoard) (Some statusField)
             sampleGroups sampleGroups eq_refl).
  reflexivity.
Defined.

Lemma onSortColumns_weights_witness :
  NoDup ["done"; "todo"; "doing"] ∧
  columnWeight (Some (onSortColumns (Some sampleBoard) ["done"; "todo"; "doing"]))
    "doing" = 2%Z ∧
  columnWeight (Some (onSortColumns (Some sampleBoard) ["done"; "todo"; "doing"]))
    "later" = 0%Z.
Proof.
  assert (NoDup ["done"; "todo"; "doing"]) as Hnd
    by by_evaluation.
  split; [exact Hnd|].
  pose proof (onSortColumns_weights (Some sampleBoard) _ Hnd) as [Hin Hout].
  split.
  - apply (Hin 2 "doing"). reflexivity.
  - apply Hout. by_evaluation.
Defined.

Lemma getColumns_after_sort_witness :
  NoDup ["done"; "todo"; "doing"] ∧
  ["done"; "todo"; "doing"]
    ≡ₚ Column.id <$> getColumns (Some sampleBoard) (Some statusField)
                       sampleGroups sampleGroups ∧
  Column.id
    <$> getColumns
          (Some (onSortColumns (Some sampleBoard) ["done"; "todo"; "doing"]))
          (Some statusField) sampleGroups sampleGroups
  = ["done"; "todo"; "doing"].
Proof.
  assert (NoDup ["done"; "todo"; "doing"]) as Hnd
    by by_evaluation.
  assert (["done"; "todo"; "doing"]
    ≡ₚ Column.id <$> getColumns (Some sampleBoard) (Some statusField)
                       sampleGroups sampleGroups) as Hp
    by (vm_compute; apply perm_swap).
  split; [exact Hnd|]. split; [exact Hp|].
  exact (getColumns_after_sort (Some sampleBoard) (Some statusField)
           sampleGroups sampleGroups _ Hnd Hp).
Defined.

Lemma getColumns_options_witness :
  NoDup (name <$> [statusField]) ∧
  statusField ∈ [statusField] ∧
  Some sampleBoard ≫= BoardConfig.groupByField = Some (name statusField) ∧
  type statusField = DataFieldType.String ∧
  "doing" ∈ default [] (typeConfig statusField) ∧
  "doing" ∈ Column.id
    <$> getColumns (Some sampleBoard)
          (groupByField (Some sampleBoard) [statusField])
          sampleGroups sampleGroups.
Proof.
  assert (NoDup (name <$> [statusField])) as Hnd
    by by_evaluation.
  assert (statusField ∈ [statusField]) as Hin by pick_element.
  assert ("doing" ∈ default [] (typeConfig statusField)) as Hopt
    by (simpl; pick_element).
  repeat split; try done.
  exact (getColumns_options (Some sampleBoard) [statusField] sampleGroups
           statusField "doing" Hnd Hin eq_refl eq_refl Hopt).
Defined.
